(** * maskcam/mqtt_common.py: the MQTT publish client and its message queue

    A shallow embedding of [mqtt_send_queue], [mqtt_send_msg] and the
    [cb_on_connect] handler of [mqtt_connect_broker].

    The module-level queue [mqtt_msg_queue] and everything the code does
    to the outside (calls on the paho client, calls of [print]) are
    threaded through an explicit [world].  The paho client is an oracle
    that gives the result code of a [publish] from what happened before
    and the frame handed over.  The queue is a [multiprocessing.Queue]:
    what is put goes to the buffer of its feeder thread and is seen by
    [empty()] and [get_nowait()] only once the feeder has written it to
    the pipe; how far the feeder has come at each test of [empty()] is
    read off a schedule the world carries.  Python exceptions and running
    out of recursion budget are the two failure results of the [res]
    monad.  The calls are taken one after the other: no second producer
    runs between two steps of a call. *)

From Stdlib Require Import List String ZArith Bool Arith Lia Permutation.
Import ListNotations.
Local Open Scope list_scope.

(** ** Results: a returned value, a raised exception, or no budget left *)

Inductive exn : Type :=
| Empty   (* queue.Empty, raised by get_nowait on an empty queue *)
| Full.   (* queue.Full, raised by put_nowait on a full queue *)

Inductive res (A : Type) : Type :=
| Ret (a : A)
| Raise (e : exn)
| OutOfFuel.

Arguments Ret {A} a.
Arguments Raise {A} e.
Arguments OutOfFuel {A}.

Definition bind {A B : Type} (m : res A) (k : A -> res B) : res B :=
  match m with
  | Ret a => k a
  | Raise e => Raise e
  | OutOfFuel => OutOfFuel
  end.

Definition lift {A : Type} (e : exn) (o : option A) : res A :=
  match o with
  | Some a => Ret a
  | None => Raise e
  end.

Notation "' p <- m ;; k" := (bind m (fun p => k))
  (at level 100, p pattern, m at next level, right associativity).

(** ** multiprocessing.Queue(maxsize): the operations the module uses

    The state of the queue is the list [q] of the items put and not yet
    got, oldest first, and the number [unfed] of them, the newest, that
    are still in the buffer of the feeder thread; the others are in the
    pipe.  [put] acquires the semaphore and appends to the buffer; the
    feeder thread writes the buffer to the pipe, oldest first; [empty()]
    is [not self._poll()], a test of the pipe alone; [get] raises [Empty]
    when the pipe has nothing, else reads the oldest item and releases
    the semaphore; [full()] is the semaphore at zero, which counts the
    buffer and the pipe. *)

Module Queue.

Definition empty {A : Type} (q : list A) (unfed : nat) : bool :=
  List.length q <=? unfed.

Definition full {A : Type} (maxsize : nat) (q : list A) : bool :=
  maxsize <=? List.length q.

Definition get_nowait {A : Type} (q : list A) (unfed : nat)
  : option (A * list A) :=
  if empty q unfed then None
  else match q with
       | [] => None
       | x :: q' => Some (x, q')
       end.

Definition put_nowait {A : Type} (maxsize : nat) (x : A) (q : list A)
  (unfed : nat) : option (list A * nat) :=
  if full maxsize q then None else Some (q ++ [x], S unfed).

(** The feeder thread writes [k] more items of the buffer, or what is
    left of it. *)
Definition feed (k unfed : nat) : nat := unfed - k.

End Queue.

(** [Queue(maxsize=100)]: 100 mqtt messages stored max. *)
Definition maxsize : nat := 100.

(** A subscription as paho takes it: a topic filter and a QoS. *)
Definition subscription : Type := string * Z.

Section MqttCommon.

(** The JSON-serialisable values that are sent, and [json.dumps]. *)
Variable payload : Type.
Variable dumps : payload -> string.

(** The dict [{"topic": topic, "message": message}] kept in the queue. *)
Record q_msg : Type := QMsg { topic : string; message : payload }.

(** The lines the module prints, one constructor per [print] call. *)
Inductive line : Type :=
| LSendingEnqueued (t : string)   (* Sending enqueued message to topic: {t} *)
| LConnected                      (* Connected to MQTT Broker *)
| LSubscribing                    (* Subscribing to topics: *)
| LTopics (l : list subscription) (* print(subscribe_to) *)
| LQueueFailed                    (* Failed to send MQTT message queue after connecting *)
| LConnectFailed (code : Z)       (* Failed to connect to MQTT, return code {code} *)
| LDisconnected (code : Z)        (* Disconnected from MQTT Broker, code: {code} *)
| LNotConnected (t : string)      (* MQTT not connected. Skipping message to topic: {t} *)
| LSent (t : string)              (* {t} | MQTT message SENT *)
| LMessage (m : payload)          (* print(message) *)
| LEnqueued (t : string)          (* {t} | MQTT message ENQUEUED *)
| LDropped (t : string)           (* {t} | MQTT message DROPPED: FULL QUEUE *)
| LDiscarded (t : string).        (* {t} | MQTT message DISCARDED *)

(** The keyword of the [print] call: none, [warning=True], [error=True]. *)
Inductive severity : Type := Info | Warning | Error.

Definition severity_of (l : line) : severity :=
  match l with
  | LQueueFailed | LConnectFailed _ | LDiscarded _ => Warning
  | LDropped _ => Error
  | _ => Info
  end.

(** What the module does to the outside, in the order it does it. *)
Inductive event : Type :=
| Print (l : line)
| Subscribe (l : list subscription)          (* client.subscribe(l) *)
| Publish (t : string) (wire : string) (rc : Z).
    (* client.publish(t, wire), which returned a result with result[0] = rc *)

(** The paho client: the result code of a publish, given everything
    that happened before it and the frame. *)
Definition client : Type := list event -> string -> string -> Z.

(** [mqtt_msg_queue] and [unfed] are the state of the queue.  [feeder]
    is the schedule of the feeder thread: its first number is how many
    buffered messages the thread writes before the next test of
    [empty()], and so on; when the schedule is used up the thread keeps
    up with the puts. *)
Record world : Type := World {
  mqtt_msg_queue : list q_msg;
  unfed : nat;
  feeder : list nat;
  trace : list event
}.

Definition emit (e : event) (w : world) : world :=
  World (mqtt_msg_queue w) (unfed w) (feeder w) (trace w ++ [e]).

Definition print (l : line) (w : world) : world := emit (Print l) w.

Definition set_queue (q : list q_msg) (w : world) : world :=
  World q (unfed w) (feeder w) (trace w).

(** [mqtt_msg_queue.empty()]: the answer, and the queue as the feeder
    thread has left it by then. *)
Definition poll (w : world) : bool * world :=
  let k := match feeder w with
           | [] => unfed w
           | k :: _ => k
           end in
  let u := Queue.feed k (unfed w) in
  (Queue.empty (mqtt_msg_queue w) u,
   World (mqtt_msg_queue w) u (tl (feeder w)) (trace w)).

(** *** The while loop of mqtt_send_queue

    [send t m] stands for [mqtt_send_msg(mqtt_client, t, m)]; [iters]
    bounds the number of iterations. *)
Section Loop.

Variable send : string -> payload -> world -> res (bool * world).

Fixpoint send_queue_loop (iters : nat) (success : bool) (w : world)
  : res (bool * world) :=
  let (empty, w) := poll w in
  if negb empty && success then
    match iters with
    | 0 => OutOfFuel
    | S iters' =>
        '(m, q) <- lift Empty
                     (Queue.get_nowait (mqtt_msg_queue w) (unfed w)) ;;
        let w := print (LSendingEnqueued (topic m)) (set_queue q w) in
        '(success, w) <- send (topic m) (message m) w ;;
        send_queue_loop iters' success w
    end
  else Ret (success, w).

End Loop.

(** *** The failure branch of mqtt_send_msg (lines 82 to 92) *)
Definition on_failure (t : string) (m : payload) (enqueue : bool) (w : world)
  : res (bool * world) :=
  if enqueue then
    if negb (Queue.full maxsize (mqtt_msg_queue w)) then
      let w := print (LEnqueued t) w in
      '(q, u) <- lift Full
                   (Queue.put_nowait maxsize (QMsg t m) (mqtt_msg_queue w)
                      (unfed w)) ;;
      Ret (false, World q u (feeder w) (trace w))
    else Ret (false, print (LDropped t) w)
  else Ret (false, print (LDiscarded t) w).

(** *** The publish and what follows it (lines 76 to 92) *)
Definition publish_msg (c : client) (t : string) (m : payload)
  (enqueue : bool) (w : world) : res (bool * world) :=
  let rc := c (trace w) t (dumps m) in
  let w := emit (Publish t (dumps m) rc) w in
  if (rc =? 0)%Z then Ret (true, print (LMessage m) (print (LSent t) w))
  else on_failure t m enqueue w.

(** *** mqtt_send_msg

    [depth] bounds the nesting of [mqtt_send_msg] inside
    [mqtt_send_queue] inside [mqtt_send_msg]: one unit per activation of
    [mqtt_send_msg] with a client. *)
Fixpoint mqtt_send_msg (depth iters : nat) (mqtt_client : option client)
  (t : string) (m : payload) (enqueue : bool) (w : world) {struct depth}
  : res (bool * world) :=
  match mqtt_client with
  | None => Ret (false, print (LNotConnected t) w)
  | Some c =>
      match depth with
      | 0 => OutOfFuel
      | S depth' =>
          (* mqtt_send_queue(mqtt_client), its result unused *)
          '(_, w) <- send_queue_loop
                       (fun t' m' => mqtt_send_msg depth' iters mqtt_client t' m' true)
                       iters true w ;;
          publish_msg c t m enqueue w
      end
  end.

(** *** mqtt_send_queue *)
Definition mqtt_send_queue (depth iters : nat) (mqtt_client : option client)
  (w : world) : res (bool * world) :=
  send_queue_loop (fun t m => mqtt_send_msg depth iters mqtt_client t m true)
    iters true w.

(** *** cb_on_connect, the closure of mqtt_connect_broker

    [subscribe_to] and [cb_success] are the variables it closes over;
    [userdata] and [flags] are unused.  [if subscribe_to:] holds of a
    list that is neither [None] nor empty.  The callback is the caller's
    code: any function on the world. *)
Definition callback : Type := client -> world -> world.

Definition cb_on_connect (subscribe_to : option (list subscription))
  (cb_success : option callback) (depth iters : nat)
  (c : client) (code : Z) (w : world) : res world :=
  if (code =? 0)%Z then
    let w := print LConnected w in
    let w :=
      match subscribe_to with
      | Some (s :: l) =>
          emit (Subscribe (s :: l))
            (print (LTopics (s :: l)) (print LSubscribing w))
      | _ => w
      end in
    let w :=
      match cb_success with
      | Some cb => cb c w
      | None => w
      end in
    '(ok, w) <- mqtt_send_queue depth iters (Some c) w ;;
    Ret (if negb ok then print LQueueFailed w else w)
  else Ret (print (LConnectFailed code) w).

Definition cb_on_disconnect (code : Z) (w : world) : world :=
  print (LDisconnected code) w.

End MqttCommon.

Arguments QMsg {payload} topic message.
Arguments topic {payload} q.
Arguments message {payload} q.
Arguments LSendingEnqueued {payload} t.
Arguments LConnected {payload}.
Arguments LSubscribing {payload}.
Arguments LTopics {payload} l.
Arguments LQueueFailed {payload}.
Arguments LConnectFailed {payload} code.
Arguments LDisconnected {payload} code.
Arguments LNotConnected {payload} t.
Arguments LSent {payload} t.
Arguments LMessage {payload} m.
Arguments LEnqueued {payload} t.
Arguments LDropped {payload} t.
Arguments LDiscarded {payload} t.
Arguments severity_of {payload} l.
Arguments Print {payload} l.
Arguments Subscribe {payload} l.
Arguments Publish {payload} t wire rc.
Arguments World {payload} mqtt_msg_queue unfed feeder trace.
Arguments mqtt_msg_queue {payload} w.
Arguments unfed {payload} w.
Arguments feeder {payload} w.
Arguments poll {payload} w : simpl never.
Arguments trace {payload} w.
Arguments emit {payload} e w.
Arguments print {payload} l w.
Arguments set_queue {payload} q w.
Arguments send_queue_loop {payload} send iters success w.
Arguments on_failure {payload} t m enqueue w.
Arguments publish_msg {payload} dumps c t m enqueue w.
Arguments mqtt_send_msg {payload} dumps depth iters mqtt_client t m enqueue w.
Arguments mqtt_send_queue {payload} dumps depth iters mqtt_client w.
Arguments cb_on_connect {payload} dumps subscribe_to cb_success depth iters c code w.
Arguments cb_on_disconnect {payload} code w.

(** ** Vocabulary of the statements *)

Section Vocabulary.

Variable payload : Type.
Variable dumps : payload -> string.

(** The frame a queued message is published as. *)
Definition frame_of (q : q_msg payload) : string * string :=
  (topic q, dumps (message q)).

(** The frames handed to the client, in order, with their result code. *)
Fixpoint published (evs : list (event payload)) : list (string * string * Z) :=
  match evs with
  | [] => []
  | Publish t wire rc :: evs' => (t, wire, rc) :: published evs'
  | _ :: evs' => published evs'
  end.

(** The frames the client accepted (result code 0), in order. *)
Fixpoint accepted (evs : list (event payload)) : list (string * string) :=
  match evs with
  | [] => []
  | Publish t wire rc :: evs' =>
      if (rc =? 0)%Z then (t, wire) :: accepted evs' else accepted evs'
  | _ :: evs' => accepted evs'
  end.

(** Events of a drain: a publish or a printed line. *)
Definition publish_or_print (e : event payload) : bool :=
  match e with
  | Subscribe _ => false
  | _ => true
  end.

(** The messages the feeder thread has written to the pipe: all but
    the newest [unfed]. *)
Definition visible (w : world payload) : list (q_msg payload) :=
  firstn (List.length (mqtt_msg_queue w) - unfed w) (mqtt_msg_queue w).

(** What re-applying the subscriptions does: nothing when there is none
    to apply. *)
Definition subscription_events (subscribe_to : option (list subscription))
  : list (event payload) :=
  match subscribe_to with
  | Some (s :: l) =>
      [Print LSubscribing; Print (LTopics (s :: l)); Subscribe (s :: l)]
  | _ => []
  end.

(** A call of one of the two entry points, and a run of such calls. *)
Inductive call : Type :=
| SendMsg (mqtt_client : option (client payload)) (t : string) (m : payload)
    (enqueue : bool)
| SendQueue (mqtt_client : option (client payload)).

Definition run_call (depth iters : nat) (k : call) (w : world payload)
  : res (bool * world payload) :=
  match k with
  | SendMsg mqtt_client t m enqueue =>
      mqtt_send_msg dumps depth iters mqtt_client t m enqueue w
  | SendQueue mqtt_client => mqtt_send_queue dumps depth iters mqtt_client w
  end.

Fixpoint run (depth iters : nat) (ks : list call) (w : world payload)
  : res (world payload) :=
  match ks with
  | [] => Ret w
  | k :: ks' => '(_, w') <- run_call depth iters k w ;; run depth iters ks' w'
  end.

End Vocabulary.

Arguments frame_of {payload} dumps q.
Arguments published {payload} evs.
Arguments accepted {payload} evs.
Arguments publish_or_print {payload} e.
Arguments visible {payload} w.
Arguments subscription_events {payload} subscribe_to.
Arguments SendMsg {payload} mqtt_client t m enqueue.
Arguments SendQueue {payload} mqtt_client.
Arguments run_call {payload} dumps depth iters k w.
Arguments run {payload} dumps depth iters ks w.

(** ** Sample clients and worlds, with strings as payloads *)

Module Sample.

Definition dumps (m : string) : string := m.

(** A client whose every publish succeeds. *)
Definition client_ok : client string := fun _ _ _ => 0%Z.

(** A client whose every publish fails (MQTT_ERR_NO_CONN). *)
Definition client_down : client string := fun _ _ _ => 4%Z.

(** A client that refuses the frames of one topic. *)
Definition client_refusing (bad : string) : client string :=
  fun _ t _ => if String.eqb t bad then 4%Z else 0%Z.

(** A client whose first [n] publishes fail and the later ones succeed. *)
Definition client_up_after (n : nat) : client string :=
  fun evs _ _ => if List.length (published evs) <? n then 4%Z else 0%Z.

(** The value a computation returned, [d] if it did not return. *)
Definition value {A : Type} (d : A) (r : res A) : A :=
  match r with
  | Ret a => a
  | _ => d
  end.

(** A success callback that publishes a greeting, not to be enqueued. *)
Definition say_hello : callback string :=
  fun c w =>
    snd (value (false, w)
           (mqtt_send_msg dumps 3 3 (Some c) "hello"%string "up"%string false w)).

Definition msg (t : string) : q_msg string := QMsg t t.

(** An Outbox holding one message per topic of [ts], all of them written
    to the pipe, nothing done yet, and a feeder thread that keeps up. *)
Definition backlog (ts : list string) : world string :=
  World (map msg ts) 0 [] [].

(** The same with a feeder thread that writes nothing during the next
    [n] tests of [empty()]. *)
Definition backlog_unfed (n : nat) (ts : list string) : world string :=
  World (map msg ts) 0 (repeat 0 n) [].

(** The world a call returned. *)
Definition world_of (r : res (bool * world string)) : world string :=
  snd (value (false, World [] 0 [] []) r).

(** Five messages queued, the client refuses the third, and the feeder
    thread writes nothing while the drain runs. *)
Definition five : world string :=
  backlog_unfed 12 ["m1"; "m2"; "m3"; "m4"; "m5"]%string.

Definition drain_five : res (bool * world string) :=
  mqtt_send_queue dumps 5 5 (Some (client_refusing "m3")) five.

(** A full queue and a client that is down. *)
Definition full_queue : world string :=
  World (repeat (msg "x") 100) 0 [] [].

Definition publish_on_full : list (call string) :=
  [SendMsg (Some client_down) "new"%string "new"%string true].

(** A reconnect with one message queued that the client still refuses. *)
Definition reconnect : res (world string) :=
  cb_on_connect dumps (Some [("commands"%string, 0%Z)]) (Some say_hello)
    2 2 (client_refusing "a") 0 (backlog ["a"%string]).

(** A publish on a queue of two with a client that is up. *)
Definition publish_third : res (bool * world string) :=
  mqtt_send_msg dumps 3 3 (Some client_ok) "c"%string "c"%string true
    (backlog ["a"; "b"]%string).

Definition after_publish_on_full : world string :=
  value full_queue (run dumps 101 101 publish_on_full full_queue).

(** A publish through a client whose first three publishes fail. *)
Definition publish_late (t : string) (w : world string)
  : res (bool * world string) :=
  mqtt_send_msg dumps 3 3 (Some (client_up_after 3)) t t true w.

(** Three messages queued, the client refuses the second. *)
Definition three : world string := backlog ["m1"; "m2"; "m3"]%string.

Definition drain_three : res (bool * world string) :=
  mqtt_send_queue dumps 3 3 (Some (client_refusing "m2")) three.

(** Three messages queued, the client refuses the second, and the feeder
    thread writes nothing while the drain runs. *)
Definition three_unfed : world string :=
  backlog_unfed 8 ["m1"; "m2"; "m3"]%string.

Definition drain_three_unfed : res (bool * world string) :=
  mqtt_send_queue dumps 3 3 (Some (client_refusing "m2")) three_unfed.

(** A publish with [enqueue=False] on a queue of two: once with no
    client, once with a client that is down. *)
Definition two : world string := backlog_unfed 8 ["a"; "b"]%string.

Definition publish_no_client : res (bool * world string) :=
  mqtt_send_msg dumps 3 3 None "new"%string "new"%string false two.

Definition publish_discarded : res (bool * world string) :=
  mqtt_send_msg dumps 3 3 (Some client_down) "new"%string "new"%string
    false two.

End Sample.

(** ** The callbacks at work

    [mqtt_connect_broker] registers [cb_on_connect] and [cb_on_disconnect]
    on the client and starts the paho loop; from then on the loop calls
    them, one call per connect acknowledgment and per disconnect. *)

Section Session.

Variable payload : Type.
Variable dumps : payload -> string.

(** What the paho loop tells the callbacks. *)
Inductive notification : Type :=
| ConnAck (code : Z)         (* on_connect(client, userdata, flags, code) *)
| Disconnected (code : Z).   (* on_disconnect(client, userdata, code) *)

Definition notify (subscribe_to : option (list subscription))
  (cb_success : option (callback payload)) (depth iters : nat)
  (c : client payload) (n : notification) (w : world payload)
  : res (world payload) :=
  match n with
  | ConnAck code =>
      cb_on_connect dumps subscribe_to cb_success depth iters c code w
  | Disconnected code => Ret (cb_on_disconnect code w)
  end.

Fixpoint notify_all (subscribe_to : option (list subscription))
  (cb_success : option (callback payload)) (depth iters : nat)
  (c : client payload) (ns : list notification) (w : world payload)
  : res (world payload) :=
  match ns with
  | [] => Ret w
  | n :: ns' =>
      '(w') <- notify subscribe_to cb_success depth iters c n w ;;
      notify_all subscribe_to cb_success depth iters c ns' w'
  end.

(** The acknowledgments of a successful connect among the notifications. *)
Definition connected (n : notification) : bool :=
  match n with
  | ConnAck code => (code =? 0)%Z
  | Disconnected _ => false
  end.

(** The subscribe calls made, in order. *)
Fixpoint subscribed (evs : list (event payload)) : list (list subscription) :=
  match evs with
  | [] => []
  | Subscribe l :: evs' => l :: subscribed evs'
  | _ :: evs' => subscribed evs'
  end.

(** The lines that report a message as lost: DROPPED and DISCARDED. *)
Definition reports_loss (e : event payload) : bool :=
  match e with
  | Print (LDropped _) | Print (LDiscarded _) => true
  | _ => false
  end.

(** The frame was handed to the transport, whatever the result. *)
Definition handed (evs : list (event payload)) (f : string * string) : Prop :=
  exists rc, In (Publish (fst f) (snd f) rc) evs.

End Session.

Arguments notify {payload} dumps subscribe_to cb_success depth iters c n w.
Arguments notify_all {payload} dumps subscribe_to cb_success depth iters c ns w.
Arguments subscribed {payload} evs.
Arguments reports_loss {payload} e.
Arguments handed {payload} evs f.

(** ** server/backend/app/api/routes/device_routes.py

    The five routes call a CRUD function of [app.db.cruds] and translate
    some of its exceptions.  The CRUD functions, the database session and
    [jsonable_encoder] are not part of these sources: each route takes the
    outcome of the call it makes. *)

Module DeviceRoutes.

(** The exceptions a route tells apart, by class. *)
Inductive db_error : Type :=
| IntegrityError             (* sqlalchemy.exc.IntegrityError *)
| DataError (detail : string) (* sqlalchemy.exc.DataError *)
| NoResultFound              (* sqlalchemy.orm.exc.NoResultFound *)
| OtherError (name : string). (* any other exception *)

Inductive error : Type :=
| Db (e : db_error)             (* raised by the call, not caught *)
| ItemAlreadyExist
| NoItemFoundException
| GenericException (e : db_error).

Inductive outcome (A : Type) : Type :=
| Returned (a : A)
| Raised (e : error).

Arguments Returned {A} a.
Arguments Raised {A} e.

Section Routes.

Variables device dict : Type.

(** [create_device_item]: [except IntegrityError: raise ItemAlreadyExist()].
    The encoder runs inside the [try]. *)
Definition create_device_item (jsonable_encoder : outcome dict)
  (create_device : dict -> outcome device) : outcome device :=
  match jsonable_encoder with
  | Returned device_information =>
      match create_device device_information with
      | Raised (Db IntegrityError) => Raised ItemAlreadyExist
      | r => r
      end
  | Raised (Db IntegrityError) => Raised ItemAlreadyExist
  | Raised e => Raised e
  end.

(** [get_device_item]: [except NoResultFound: raise NoItemFoundException()]. *)
Definition get_device_item (get_device : outcome device) : outcome device :=
  match get_device with
  | Raised (Db NoResultFound) => Raised NoItemFoundException
  | r => r
  end.

(** [get_devices_items]: no [try]. *)
Definition get_devices_items (get_devices : outcome (list device))
  : outcome (list device) :=
  get_devices.

(** [update_device_item] and [delete_device_item]:
    [except NoResultFound: raise NoItemFoundException()],
    [except DataError as e: raise GenericException(e)]. *)
Definition update_device_item (update_device : outcome device)
  : outcome device :=
  match update_device with
  | Raised (Db NoResultFound) => Raised NoItemFoundException
  | Raised (Db (DataError d)) => Raised (GenericException (DataError d))
  | r => r
  end.

Definition delete_device_item (delete_device : outcome device)
  : outcome device :=
  match delete_device with
  | Raised (Db NoResultFound) => Raised NoItemFoundException
  | Raised (Db (DataError d)) => Raised (GenericException (DataError d))
  | r => r
  end.

End Routes.

Arguments create_device_item {device dict} jsonable_encoder create_device.
Arguments get_device_item {device} get_device.
Arguments get_devices_items {device} get_devices.
Arguments update_device_item {device} update_device.
Arguments delete_device_item {device} delete_device.

(** The CRUD calls only raise what they raise themselves: the exceptions
    of [app.api] come from the routes. *)
Definition from_crud {A : Type} (r : outcome A) : Prop :=
  match r with
  | Returned _ | Raised (Db _) => True
  | Raised _ => False
  end.

End DeviceRoutes.

(** ** More sample runs *)

Module Scenario.

Import Sample.

(** Three messages queued and a client that is up. *)
Definition drain_ok : res (bool * world string) :=
  mqtt_send_queue dumps 3 3 (Some client_ok) three.

(** A publish the client refuses, on a queue of three it accepts. *)
Definition publish_refused : res (bool * world string) :=
  mqtt_send_msg dumps 4 3 (Some (client_refusing "new"))
    "new"%string "new"%string true three.

(** A publish on an empty queue with the client down. *)
Definition publish_down : res (bool * world string) :=
  mqtt_send_msg dumps 1 0 (Some client_down)
    "alerts"%string "fire"%string true (backlog []).

Definition commands : subscription := ("commands"%string, 0%Z).

(** A success callback that does nothing. *)
Definition quiet : callback string := fun _ w => w.

(** Connected, disconnected, refused, connected again. *)
Definition session : list notification :=
  [ConnAck 0; Disconnected 7; ConnAck 5; ConnAck 0].

Definition after_session : res (world string) :=
  notify_all dumps (Some [commands]) (Some quiet) 3 3 client_ok session three.

(** A refused connect and a disconnect. *)
Definition unconnected : list notification := [ConnAck 5; Disconnected 1].

(** A CRUD call that finds no row. *)
Definition no_row : DeviceRoutes.outcome string :=
  DeviceRoutes.Raised (DeviceRoutes.Db DeviceRoutes.NoResultFound).

End Scenario.

(** ** Properties *)

Section Properties.

Variable payload : Type.
Variable dumps : payload -> string.

Local Abbreviation world := (world payload).
Local Abbreviation client := (client payload).
Local Abbreviation qlen w := (List.length (mqtt_msg_queue w)).

(** *** The test of the queue *)

Lemma poll_spec (w : world) e wp :
  poll w = (e, wp) ->
  e = Queue.empty (mqtt_msg_queue wp) (unfed wp) /\
  mqtt_msg_queue wp = mqtt_msg_queue w /\
  trace wp = trace w /\
  unfed wp <= unfed w.
Proof.
  unfold poll, Queue.feed. intros H. injection H as <- <-. simpl.
  repeat split. lia.
Qed.

Lemma poll_nonempty (w : world) wp :
  poll w = (false, wp) ->
  exists m q, mqtt_msg_queue wp = m :: q /\
              Queue.get_nowait (mqtt_msg_queue wp) (unfed wp) = Some (m, q).
Proof.
  intros H. apply poll_spec in H as (E & _). unfold Queue.get_nowait.
  rewrite <- E. unfold Queue.empty in E.
  destruct (mqtt_msg_queue wp) as [|m q]; [discriminate|]. eauto.
Qed.

Lemma poll_nil (w : world) :
  mqtt_msg_queue w = [] -> exists wp, poll w = (true, wp).
Proof.
  intros Q. unfold poll, Queue.empty. rewrite Q. simpl. eauto.
Qed.

(** *** Unfolding equations *)

Lemma mqtt_send_msg_none depth iters t m enqueue (w : world) :
  mqtt_send_msg dumps depth iters None t m enqueue w
  = Ret (false, print (LNotConnected t) w).
Proof. destruct depth; reflexivity. Qed.

Lemma mqtt_send_msg_some depth iters (c : client) t m enqueue (w : world) :
  mqtt_send_msg dumps (S depth) iters (Some c) t m enqueue w
  = bind (mqtt_send_queue dumps depth iters (Some c) w)
      (fun r => publish_msg dumps c t m enqueue (snd r)).
Proof.
  unfold mqtt_send_queue. simpl.
  destruct (send_queue_loop _ iters true w) as [[b w1]| |]; reflexivity.
Qed.

Lemma send_queue_loop_eq send iters success (w : world) :
  send_queue_loop send iters success w
  = let (e, wp) := poll w in
    if negb e && success then
      match iters with
      | 0 => OutOfFuel
      | S iters' =>
          bind (lift Empty (Queue.get_nowait (mqtt_msg_queue wp) (unfed wp)))
            (fun mq =>
               bind (send (topic (fst mq)) (message (fst mq))
                       (print (LSendingEnqueued (topic (fst mq)))
                          (set_queue (snd mq) wp)))
                 (fun r => send_queue_loop send iters' (fst r) (snd r)))
      end
    else Ret (success, wp).
Proof.
  destruct iters; cbn [send_queue_loop]; destruct (poll w) as [e wp];
    destruct (negb e && success); try reflexivity.
  destruct (Queue.get_nowait (mqtt_msg_queue wp) (unfed wp)) as [[m q]|];
    [|reflexivity].
  cbn [lift bind fst snd].
  destruct (send _ _ _) as [[b w1]| |]; reflexivity.
Qed.

Lemma send_queue_loop_exit send iters success (w : world) e wp :
  poll w = (e, wp) ->
  negb e && success = false ->
  send_queue_loop send iters success w = Ret (success, wp).
Proof. intros P H. rewrite send_queue_loop_eq, P, H. reflexivity. Qed.

Lemma send_queue_loop_step send iters m q (w : world) wp :
  poll w = (false, wp) ->
  mqtt_msg_queue wp = m :: q ->
  send_queue_loop send (S iters) true w
  = bind (send (topic m) (message m)
            (print (LSendingEnqueued (topic m)) (set_queue q wp)))
      (fun r => send_queue_loop send iters (fst r) (snd r)).
Proof.
  intros P Q. rewrite send_queue_loop_eq, P. cbn [negb andb].
  destruct (poll_nonempty _ _ P) as (m' & q' & Q' & ->).
  rewrite Q in Q'. injection Q' as <- <-. reflexivity.
Qed.

Lemma bind_ret {A B : Type} (x : res A) (k : A -> res B) (b : B) :
  bind x k = Ret b -> exists a, x = Ret a /\ k a = Ret b.
Proof. destruct x; simpl; intros H; try discriminate. eauto. Qed.

(** *** The failure branch and the publish always return *)

Lemma on_failure_cases t m enqueue (w : world) :
  on_failure t m enqueue w
  = Ret (false,
         if enqueue then
           if Queue.full maxsize (mqtt_msg_queue w)
           then print (LDropped t) w
           else World (mqtt_msg_queue w ++ [QMsg t m]) (S (unfed w))
                  (feeder w) (trace w ++ [Print (LEnqueued t)])
         else print (LDiscarded t) w).
Proof.
  unfold on_failure, Queue.put_nowait. destruct enqueue; [|reflexivity].
  simpl. destruct (Queue.full maxsize (mqtt_msg_queue w)); reflexivity.
Qed.

Lemma publish_msg_cases (c : client) t m enqueue (w : world) :
  let rc := c (trace w) t (dumps m) in
  let w1 := emit (Publish t (dumps m) rc) w in
  publish_msg dumps c t m enqueue w
  = if (rc =? 0)%Z then Ret (true, print (LMessage m) (print (LSent t) w1))
    else Ret (false,
              if enqueue then
                if Queue.full maxsize (mqtt_msg_queue w)
                then print (LDropped t) w1
                else World (mqtt_msg_queue w ++ [QMsg t m]) (S (unfed w))
                       (feeder w) (trace w1 ++ [Print (LEnqueued t)])
              else print (LDiscarded t) w1).
Proof.
  intros rc w1. unfold publish_msg. fold rc. fold w1.
  destruct (rc =? 0)%Z; [reflexivity|]. rewrite on_failure_cases. reflexivity.
Qed.

(** *** Induction over a run of the two functions

    [Pm t m enqueue w b w'] is to hold of every returning call of
    [mqtt_send_msg], [Pl success w b w'] of every returning run of the
    loop entered with [success]. *)

Section Run_ind.

Variable mqtt_client : option client.
Variable Pm : string -> payload -> bool -> world -> bool -> world -> Prop.
Variable Pl : bool -> world -> bool -> world -> Prop.

Hypothesis H_none : mqtt_client = None ->
  forall t m enqueue w, Pm t m enqueue w false (print (LNotConnected t) w).
Hypothesis H_msg : forall c, mqtt_client = Some c ->
  forall t m enqueue w b0 w0 b w',
    Pl true w b0 w0 ->
    publish_msg dumps c t m enqueue w0 = Ret (b, w') ->
    Pm t m enqueue w b w'.
Hypothesis H_exit : forall success w e wp,
  poll w = (e, wp) ->
  negb e && success = false ->
  Pl success w success wp.
Hypothesis H_iter : forall w wp m q b1 w1 b2 w2,
  poll w = (false, wp) ->
  mqtt_msg_queue wp = m :: q ->
  Pm (topic m) (message m) true
     (print (LSendingEnqueued (topic m)) (set_queue q wp)) b1 w1 ->
  Pl b1 w1 b2 w2 ->
  Pl true w b2 w2.

Lemma loop_ind send :
  (forall t m w b w', send t m w = Ret (b, w') -> Pm t m true w b w') ->
  forall iters success w b w',
    send_queue_loop send iters success w = Ret (b, w') ->
    Pl success w b w'.
Proof.
  intros Hsend. induction iters as [|n IH]; intros success w b w' H;
    destruct (poll w) as [e wp] eqn:P;
    destruct (negb e && success) eqn:E.
  - rewrite send_queue_loop_eq, P, E in H. discriminate.
  - rewrite (send_queue_loop_exit _ _ _ _ _ _ P E) in H.
    injection H as <- <-. eapply H_exit; eauto.
  - apply andb_true_iff in E as [E1 ->]. apply negb_true_iff in E1. subst e.
    destruct (poll_nonempty _ _ P) as (m & q & Q & _).
    rewrite (send_queue_loop_step _ _ _ _ _ _ P Q) in H.
    apply bind_ret in H as [[b1 w1] [H1 H2]]. simpl in H2.
    eapply H_iter; eauto.
  - rewrite (send_queue_loop_exit _ _ _ _ _ _ P E) in H.
    injection H as <- <-. eapply H_exit; eauto.
Qed.

Lemma msg_ind depth iters :
  forall t m enqueue w b w',
    mqtt_send_msg dumps depth iters mqtt_client t m enqueue w = Ret (b, w') ->
    Pm t m enqueue w b w'.
Proof.
  induction depth as [|d IH]; intros t m enqueue w b w' H.
  - destruct mqtt_client as [c|] eqn:C; [discriminate|].
    injection H as <- <-. now apply H_none.
  - destruct mqtt_client as [c|] eqn:C.
    + rewrite mqtt_send_msg_some in H.
      apply bind_ret in H as [[b0 w0] [H1 H2]]. simpl in H2.
      eapply (H_msg c eq_refl); eauto.
      eapply loop_ind; [|exact H1]. intros; now apply IH.
    + rewrite mqtt_send_msg_none in H. injection H as <- <-.
      now apply H_none.
Qed.

Lemma queue_ind depth iters :
  forall w b w',
    mqtt_send_queue dumps depth iters mqtt_client w = Ret (b, w') ->
    Pl true w b w'.
Proof.
  intros w b w' H. eapply loop_ind; [|exact H].
  intros t m w0 b0 w0' H0. exact (msg_ind _ _ _ _ _ _ _ _ H0).
Qed.

End Run_ind.

(** *** What one publish does *)

Lemma publish_msg_inv (c : client) t m enqueue (w : world) b w' :
  publish_msg dumps c t m enqueue w = Ret (b, w') ->
  let rc := c (trace w) t (dumps m) in
  (rc = 0%Z /\ b = true /\ mqtt_msg_queue w' = mqtt_msg_queue w /\
   trace w' = trace w ++ [Publish t (dumps m) 0; Print (LSent t);
                          Print (LMessage m)])
  \/
  (rc <> 0%Z /\ b = false /\
   exists l, trace w' = trace w ++ [Publish t (dumps m) rc; Print l] /\
     ((enqueue = true /\ Queue.full maxsize (mqtt_msg_queue w) = false /\
       l = LEnqueued t /\ mqtt_msg_queue w' = mqtt_msg_queue w ++ [QMsg t m])
      \/ (enqueue = true /\ Queue.full maxsize (mqtt_msg_queue w) = true /\
          l = LDropped t /\ mqtt_msg_queue w' = mqtt_msg_queue w)
      \/ (enqueue = false /\
          l = LDiscarded t /\ mqtt_msg_queue w' = mqtt_msg_queue w))).
Proof.
  intros H rc. rewrite publish_msg_cases in H. fold rc in H.
  destruct (rc =? 0)%Z eqn:E.
  - apply Z.eqb_eq in E. injection H as <- <-. left. rewrite E.
    repeat split; try reflexivity. simpl. now rewrite <- !app_assoc.
  - apply Z.eqb_neq in E. injection H as <- <-. right.
    repeat split; try assumption.
    destruct enqueue.
    + destruct (Queue.full maxsize (mqtt_msg_queue w)) eqn:F.
      * exists (LDropped t). split; [simpl; now rewrite <- app_assoc|].
        right; left. repeat split.
      * exists (LEnqueued t). split; [simpl; now rewrite <- app_assoc|].
        left. repeat split.
    + exists (LDiscarded t). split; [simpl; now rewrite <- app_assoc|].
      right; right. repeat split.
Qed.

(** A publish that succeeds leaves the feeder's buffer as it was. *)
Lemma publish_msg_unfed (c : client) t m enqueue (w : world) w' :
  publish_msg dumps c t m enqueue w = Ret (true, w') -> unfed w' = unfed w.
Proof.
  intros H. rewrite publish_msg_cases in H. cbv zeta in H.
  destruct (c (trace w) t (dumps m) =? 0)%Z; [|discriminate].
  now injection H as <-.
Qed.

Lemma full_false_lt (q : list (q_msg payload)) :
  Queue.full maxsize q = false <-> List.length q < maxsize.
Proof. unfold Queue.full. now rewrite Nat.leb_gt. Qed.

Lemma full_true_le (q : list (q_msg payload)) :
  Queue.full maxsize q = true <-> maxsize <= List.length q.
Proof. unfold Queue.full. now rewrite Nat.leb_le. Qed.

(** *** Length of the queue across a call *)

Lemma publish_msg_length (c : client) t m enqueue (w : world) b w' :
  publish_msg dumps c t m enqueue w = Ret (b, w') ->
  qlen w' <= qlen w + (if b then 0 else 1) /\
  (qlen w <= maxsize -> qlen w' <= maxsize).
Proof.
  intros H. apply publish_msg_inv in H.
  destruct H as [(_ & -> & Q & _)|(_ & -> & l & _ & H)].
  - rewrite Q. lia.
  - destruct H as [(_ & F & _ & Q)|[(_ & _ & _ & Q)|(_ & _ & Q)]];
      rewrite Q; try lia.
    apply full_false_lt in F. rewrite length_app. simpl. lia.
Qed.

Lemma mqtt_send_length depth iters mqtt_client :
  (forall t m enqueue (w : world) b w',
     mqtt_send_msg dumps depth iters mqtt_client t m enqueue w = Ret (b, w') ->
     qlen w' <= qlen w + (if b then 0 else 1) /\
     (qlen w <= maxsize -> qlen w' <= maxsize)) /\
  (forall (w : world) b w',
     mqtt_send_queue dumps depth iters mqtt_client w = Ret (b, w') ->
     qlen w' <= qlen w).
Proof.
  split.
  - apply (msg_ind mqtt_client
             (fun _ _ _ w b w' =>
                qlen w' <= qlen w + (if b then 0 else 1) /\
                (qlen w <= maxsize -> qlen w' <= maxsize))
             (fun _ w _ w' => qlen w' <= qlen w)).
    + intros _ t m e w. simpl. lia.
    + intros c _ t m e w b0 w0 b w' Hl Hp.
      apply publish_msg_length in Hp. lia.
    + intros success w e wp P _. apply poll_spec in P as (_ & -> & _). lia.
    + intros w wp m q b1 w1 b2 w2 P Q [H1 _] H2.
      apply poll_spec in P as (_ & <- & _). rewrite Q. simpl in *.
      destruct b1; lia.
  - apply (queue_ind mqtt_client
             (fun _ _ _ w b w' =>
                qlen w' <= qlen w + (if b then 0 else 1))
             (fun _ w _ w' => qlen w' <= qlen w)).
    + intros _ t m e w. simpl. lia.
    + intros c _ t m e w b0 w0 b w' Hl Hp.
      apply publish_msg_length in Hp. lia.
    + intros success w e wp P _. apply poll_spec in P as (_ & -> & _). lia.
    + intros w wp m q b1 w1 b2 w2 P Q H1 H2.
      apply poll_spec in P as (_ & <- & _). rewrite Q. simpl in *.
      destruct b1; lia.
Qed.

(** *** Termination *)

Lemma publish_msg_returns (c : client) t m enqueue (w : world) :
  exists b w', publish_msg dumps c t m enqueue w = Ret (b, w').
Proof.
  rewrite publish_msg_cases. cbv zeta.
  destruct (c (trace w) t (dumps m) =? 0)%Z; eexists; eexists; reflexivity.
Qed.

Lemma send_queue_loop_returns
  (send : string -> payload -> world -> res (bool * world)) N :
  (forall t m (w : world), qlen w < N ->
     exists b w', send t m w = Ret (b, w') /\
                  qlen w' <= qlen w + (if b then 0 else 1)) ->
  forall iters success (w : world),
    qlen w <= N -> qlen w <= iters ->
    exists b w', send_queue_loop send iters success w = Ret (b, w').
Proof.
  intros Hsend. induction iters as [|n IH]; intros success w HN Hn;
    destruct (poll w) as [e wp] eqn:P;
    destruct (negb e && success) eqn:E;
    try (exists success, wp; now apply (send_queue_loop_exit _ _ _ _ _ _ P E)).
  - apply andb_true_iff in E as [E1 _]. apply negb_true_iff in E1. subst e.
    destruct (poll_nonempty _ _ P) as (m & q & Q & _).
    apply poll_spec in P as (_ & Q' & _). rewrite Q' in Q. rewrite Q in Hn.
    simpl in Hn. lia.
  - apply andb_true_iff in E as [E1 ->]. apply negb_true_iff in E1. subst e.
    destruct (poll_nonempty _ _ P) as (m & q & Q & _).
    rewrite (send_queue_loop_step _ _ _ _ _ _ P Q).
    apply poll_spec in P as (_ & Q' & _). rewrite <- Q', Q in HN, Hn.
    simpl in HN, Hn.
    destruct (Hsend (topic m) (message m)
                (print (LSendingEnqueued (topic m)) (set_queue q wp)))
      as (b1 & w1 & -> & L); [simpl; lia|].
    simpl in *. destruct b1.
    + apply IH; lia.
    + destruct (poll w1) as [e1 wp1] eqn:P1.
      exists false, wp1. apply (send_queue_loop_exit _ _ _ _ _ _ P1).
      apply andb_false_r.
Qed.

Lemma mqtt_send_msg_returns depth iters mqtt_client :
  forall t m enqueue (w : world),
    qlen w < depth -> qlen w <= iters ->
    exists b w',
      mqtt_send_msg dumps depth iters mqtt_client t m enqueue w = Ret (b, w').
Proof.
  destruct mqtt_client as [c|].
  2:{ intros. rewrite mqtt_send_msg_none. eauto. }
  induction depth as [|d IH]; intros t m enqueue w Hd Hi; [lia|].
  rewrite mqtt_send_msg_some. unfold mqtt_send_queue.
  destruct (send_queue_loop_returns
              (fun t m => mqtt_send_msg dumps d iters (Some c) t m true)
              (Nat.min d (S iters))) with (iters := iters) (success := true)
                                          (w := w)
    as (b0 & w0 & ->); try lia.
  - intros t' m' w1 H1.
    destruct (IH t' m' true w1) as (b & w' & E); try lia.
    exists b, w'. split; [exact E|].
    now apply (proj1 (mqtt_send_length d iters (Some c))) in E.
  - simpl. apply publish_msg_returns.
Qed.

(** C10.  The mutually recursive pair returns on every queue and every
    client: a drain entered with [n] messages in the queue needs no more
    than [n] nested activations of [mqtt_send_msg] (each one entered after
    a message was taken off the queue) and no more than [n] iterations in
    any of its loops; a publish needs one activation more, its own. *)
Theorem mqtt_send_terminates depth iters mqtt_client (w : world) :
  qlen w <= depth -> qlen w <= iters ->
  (exists b w', mqtt_send_queue dumps depth iters mqtt_client w = Ret (b, w'))
  /\
  (forall t m enqueue, exists b w',
     mqtt_send_msg dumps (S depth) iters mqtt_client t m enqueue w
     = Ret (b, w')).
Proof.
  intros Hd Hi. split.
  - unfold mqtt_send_queue.
    apply (send_queue_loop_returns _ (Nat.min depth (S iters))); try lia.
    intros t m w1 H1.
    destruct (mqtt_send_msg_returns depth iters mqtt_client t m true w1)
      as (b & w' & E); try lia.
    exists b, w'. split; [exact E|].
    now apply (proj1 (mqtt_send_length depth iters mqtt_client)) in E.
  - intros. apply mqtt_send_msg_returns; lia.
Qed.

(** *** The return value of a drain *)


(** *** The bound on the queue *)

Lemma run_call_length depth iters k (w : world) b w' :
  run_call dumps depth iters k w = Ret (b, w') ->
  qlen w <= maxsize -> qlen w' <= maxsize.
Proof.
  destruct k as [mqtt_client t m enqueue|mqtt_client]; simpl; intros H L.
  - apply (proj1 (mqtt_send_length depth iters mqtt_client)) in H.
    now apply H.
  - apply (proj2 (mqtt_send_length depth iters mqtt_client)) in H. lia.
Qed.

(** C4.  Over every run of publish calls and drains that starts within
    the capacity, the queue stays within the capacity of 100; and when the
    queue is at capacity, the enqueue of the failure branch returns
    [False] and leaves the queue as it was. *)
Theorem mqtt_msg_queue_bounded depth iters ks (w : world) w' :
  qlen w <= maxsize ->
  run dumps depth iters ks w = Ret w' ->
  qlen w' <= maxsize /\ maxsize = 100 /\
  (qlen w' = maxsize ->
   forall t m, exists w'',
     on_failure t m true w' = Ret (false, w'') /\
     mqtt_msg_queue w'' = mqtt_msg_queue w').
Proof.
  revert w. induction ks as [|k ks IH]; intros w L H; simpl in H.
  - injection H as <-. split; [exact L|]. split; [reflexivity|].
    intros F t m. rewrite on_failure_cases.
    replace (Queue.full maxsize (mqtt_msg_queue w)) with true
      by (symmetry; apply full_true_le; lia).
    eexists; split; reflexivity.
  - apply bind_ret in H as [[b w1] [H1 H2]]. apply (IH w1); [|exact H2].
    eapply run_call_length; eauto.
Qed.

(** *** Publishing without a client *)

Lemma published_app (evs1 evs2 : list (event payload)) :
  published (evs1 ++ evs2) = published evs1 ++ published evs2.
Proof.
  induction evs1 as [|e evs1 IH]; [reflexivity|].
  destruct e; simpl; now rewrite ?IH.
Qed.

(** C3, as the code has it.  Without a client the message is skipped
    also when [enqueue] is true, whatever the length of the queue: the
    call returns [False], nothing is appended to the queue, and nothing is
    handed to the transport. *)
Theorem mqtt_send_msg_no_client_skips depth iters t m (w : world) :
  exists w',
    mqtt_send_msg dumps depth iters None t m true w = Ret (false, w') /\
    mqtt_msg_queue w' = mqtt_msg_queue w /\
    trace w' = trace w ++ [Print (LNotConnected t)] /\
    published (trace w') = published (trace w).
Proof.
  rewrite mqtt_send_msg_none. eexists. split; [reflexivity|].
  repeat split. simpl. rewrite published_app. simpl. apply app_nil_r.
Qed.

(** *** The return value of a publish *)

Lemma mqtt_send_msg_last depth iters mqtt_client t m enqueue (w : world) b w' :
  mqtt_send_msg dumps depth iters mqtt_client t m enqueue w = Ret (b, w') ->
  (b = true /\
   exists c pre, mqtt_client = Some c /\ c pre t (dumps m) = 0%Z /\
     trace w' = pre ++ [Publish t (dumps m) 0; Print (LSent t);
                        Print (LMessage m)])
  \/
  (b = false /\
   ((mqtt_client = None /\ trace w' = trace w ++ [Print (LNotConnected t)])
    \/
    (exists c pre rc l, mqtt_client = Some c /\
       rc = c pre t (dumps m) /\ rc <> 0%Z /\
       trace w' = pre ++ [Publish t (dumps m) rc; Print l] /\
       (l = LEnqueued t \/ l = LDropped t \/ l = LDiscarded t)))).
Proof.
  intros H. destruct mqtt_client as [c|].
  - destruct depth as [|d]; [discriminate|].
    rewrite mqtt_send_msg_some in H.
    apply bind_ret in H as [[b0 w0] [_ H]]. simpl in H.
    apply publish_msg_inv in H.
    destruct H as [(Z0 & -> & _ & T)|(Nz & -> & l & T & H)].
    + left. split; [reflexivity|]. exists c, (trace w0). auto.
    + right. split; [reflexivity|]. right.
      exists c, (trace w0), (c (trace w0) t (dumps m)), l.
      repeat split; auto.
      destruct H as [(_ & _ & -> & _)|[(_ & _ & -> & _)|(_ & -> & _)]]; tauto.
  - rewrite mqtt_send_msg_none in H. injection H as <- <-. right.
    split; [reflexivity|]. left. split; reflexivity.
Qed.

(** C9.  [mqtt_send_msg] returns a boolean.  It returns [True] exactly
    when there is a client, the client answered this message's frame
    with result code 0, and that publish with the SENT lines is the last
    thing the call did.  It returns [False] exactly when there is no
    client and the call ended on the not-connected line, or the client
    answered this message's frame with a code other than 0 and the call
    ended on ENQUEUED, DROPPED or DISCARDED; the return value does not
    tell which. *)
Theorem mqtt_send_msg_true_iff_sent depth iters mqtt_client t m enqueue
  (w : world) b w' :
  mqtt_send_msg dumps depth iters mqtt_client t m enqueue w = Ret (b, w') ->
  (b = true <->
   exists c pre, mqtt_client = Some c /\ c pre t (dumps m) = 0%Z /\
     trace w' = pre ++ [Publish t (dumps m) 0; Print (LSent t);
                        Print (LMessage m)])
  /\
  (b = false <->
   (mqtt_client = None /\ trace w' = trace w ++ [Print (LNotConnected t)])
   \/
   (exists c pre rc l, mqtt_client = Some c /\
      rc = c pre t (dumps m) /\ rc <> 0%Z /\
      trace w' = pre ++ [Publish t (dumps m) rc; Print l] /\
      (l = LEnqueued t \/ l = LDropped t \/ l = LDiscarded t))).
Proof.
  intros H. apply mqtt_send_msg_last in H.
  assert (X : forall pre pre' l,
             trace w' = pre ++ [Publish t (dumps m) 0; Print (LSent t);
                                Print (LMessage m)] ->
             trace w' = pre' ++ [Print l] ->
             (l = LNotConnected t \/ l = LEnqueued t \/ l = LDropped t \/
              l = LDiscarded t) -> False).
  { intros pre pre' l T1 T2 Hl. rewrite T1 in T2.
    change (pre ++ [Publish t (dumps m) 0; Print (LSent t); Print (LMessage m)])
      with (pre ++ [Publish t (dumps m) 0; Print (LSent t)] ++ [Print (LMessage m)])
      in T2.
    rewrite app_assoc in T2. apply app_inj_tail in T2 as [_ T2].
    injection T2 as <-.
    destruct Hl as [Hl|[Hl|[Hl|Hl]]]; discriminate. }
  assert (Y : forall pre rc l,
             trace w' = pre ++ [Publish t (dumps m) rc; Print l] ->
             trace w' = (pre ++ [Publish t (dumps m) rc]) ++ [Print l]).
  { intros pre rc l ->. now rewrite <- app_assoc. }
  destruct H as [[-> HT]|[-> HF]].
  - split; split; intros; try discriminate; try reflexivity; [exact HT|].
    exfalso. destruct HT as (c & pre & _ & _ & T).
    destruct H as [(_ & T')|(c' & pre' & rc & l & _ & _ & _ & T' & Hl)].
    + eapply X; [exact T|exact T'|tauto].
    + apply Y in T'. eapply X; [exact T|exact T'|tauto].
  - split; split; intros; try discriminate; try reflexivity; [|exact HF].
    exfalso. destruct H as (c & pre & _ & _ & T).
    destruct HF as [(_ & T')|(c' & pre' & rc & l & _ & _ & _ & T' & Hl)].
    + eapply X; [exact T|exact T'|tauto].
    + apply Y in T'. eapply X; [exact T|exact T'|tauto].
Qed.

(** *** What a drain does to the outside *)

Lemma accepted_app (evs1 evs2 : list (event payload)) :
  accepted (evs1 ++ evs2) = accepted evs1 ++ accepted evs2.
Proof.
  induction evs1 as [|e evs1 IH]; [reflexivity|].
  destruct e; simpl; try assumption.
  destruct (rc =? 0)%Z; simpl; now rewrite ?IH.
Qed.

Lemma mqtt_send_queue_events depth iters mqtt_client (w : world) b w' :
  mqtt_send_queue dumps depth iters mqtt_client w = Ret (b, w') ->
  exists evs, trace w' = trace w ++ evs /\
              forallb publish_or_print evs = true.
Proof.
  revert w b w'.
  apply (queue_ind mqtt_client
           (fun _ _ _ w _ w' =>
              exists evs, trace w' = trace w ++ evs /\
                          forallb publish_or_print evs = true)
           (fun _ w _ w' =>
              exists evs, trace w' = trace w ++ evs /\
                          forallb publish_or_print evs = true)).
  - intros _ t m e w. now exists [Print (LNotConnected t)].
  - intros c _ t m e w b0 w0 b w' (evs & T & F) Hp.
    apply publish_msg_inv in Hp.
    destruct Hp as [(_ & _ & _ & T')|(_ & _ & l & T' & _)];
      rewrite T', T, <- app_assoc; eexists; (split; [reflexivity|]);
      rewrite forallb_app, F; reflexivity.
  - intros success w e wp P _. apply poll_spec in P as (_ & _ & -> & _).
    exists []. now rewrite app_nil_r.
  - intros w wp m q b1 w1 b2 w2 P _ (evs1 & T1 & F1) (evs2 & T2 & F2).
    apply poll_spec in P as (_ & _ & T0 & _).
    exists (Print (LSendingEnqueued (topic m)) :: evs1 ++ evs2). split.
    + rewrite T2, T1. simpl. rewrite T0. now rewrite <- !app_assoc.
    + simpl. now rewrite forallb_app, F1, F2.
Qed.

(** *** The on-connect handler *)


(** *** What a drain keeps *)

Local Abbreviation frames q := (map (frame_of dumps) q).

Local Abbreviation kept_msg :=
  (fun t m (enqueue : bool) (w : world) (_ : bool) (w' : world) =>
     qlen w < maxsize -> enqueue = true ->
     exists evs,
       trace w' = trace w ++ evs /\
       Permutation ((t, dumps m) :: frames (mqtt_msg_queue w))
         (accepted evs ++ frames (mqtt_msg_queue w')) /\
       existsb reports_loss evs = false).

Local Abbreviation kept_queue :=
  (fun (_ : bool) (w : world) (_ : bool) (w' : world) =>
     qlen w <= maxsize ->
     exists evs,
       trace w' = trace w ++ evs /\
       Permutation (frames (mqtt_msg_queue w))
         (accepted evs ++ frames (mqtt_msg_queue w')) /\
       existsb reports_loss evs = false).

Lemma kept_publish (c : client) t m enqueue (w : world) b0 w0 b w' :
  kept_queue true w b0 w0 ->
  publish_msg dumps c t m enqueue w0 = Ret (b, w') ->
  kept_msg t m enqueue w b w'.
Proof.
  intros Hl Hp L ->. destruct Hl as (evs & T & P & N); [lia|].
  assert (L0 : qlen w0 <= qlen w).
  { apply Permutation_length in P. rewrite length_app, !length_map in P. lia. }
  apply publish_msg_inv in Hp.
  destruct Hp as [(_ & _ & Q & T')|(Nz & _ & l & T' & Hq)].
  - exists (evs ++ [Publish t (dumps m) 0; Print (LSent t); Print (LMessage m)]).
    split; [rewrite T', app_assoc; f_equal; exact T|]. split.
    + rewrite accepted_app, Q. simpl. rewrite <- app_assoc. simpl.
      apply Permutation_cons_app. exact P.
    + rewrite existsb_app, N. reflexivity.
  - destruct Hq as [(_ & _ & -> & Q)|[(_ & F & _ & _)|(E & _)]];
      [| |discriminate].
    + exists (evs ++ [Publish t (dumps m) (c (trace w0) t (dumps m));
                      Print (LEnqueued t)]).
      split; [rewrite T', app_assoc; f_equal; exact T|]. split.
      * rewrite accepted_app, Q, map_app. simpl.
        apply Z.eqb_neq in Nz. rewrite Nz, app_nil_r, app_assoc.
        rewrite <- Permutation_cons_append. now apply perm_skip.
      * rewrite existsb_app, N. reflexivity.
    + apply full_true_le in F. lia.
Qed.

Lemma kept_exit success (w : world) e wp :
  poll w = (e, wp) -> kept_queue success w success wp.
Proof.
  intros P _. apply poll_spec in P as (_ & -> & -> & _).
  exists []. now rewrite app_nil_r.
Qed.

Lemma kept_iter (w : world) wp m q b1 w1 b2 w2 :
  poll w = (false, wp) ->
  mqtt_msg_queue wp = m :: q ->
  kept_msg (topic m) (message m) true
    (print (LSendingEnqueued (topic m)) (set_queue q wp)) b1 w1 ->
  kept_queue b1 w1 b2 w2 ->
  kept_queue true w b2 w2.
Proof.
  intros P Q H1 H2 L. apply poll_spec in P as (_ & Q0 & T0 & _).
  rewrite <- Q0, Q in L |- *. simpl in L.
  destruct H1 as (evs1 & T1 & P1 & N1); [simpl; lia|reflexivity|].
  assert (L1 : qlen w1 <= maxsize).
  { apply Permutation_length in P1. simpl in P1.
    rewrite length_app, !length_map in P1. lia. }
  destruct (H2 L1) as (evs2 & T2 & P2 & N2).
  exists (Print (LSendingEnqueued (topic m)) :: evs1 ++ evs2). split.
  - rewrite T2, T1. simpl. rewrite T0. now rewrite <- !app_assoc.
  - split.
    + simpl. rewrite accepted_app, <- app_assoc.
      simpl in P1. rewrite P1. now apply Permutation_app_head.
    + simpl. now rewrite existsb_app, N1, N2.
Qed.

Lemma mqtt_send_queue_kept depth iters (c : client) (w : world) b w' :
  mqtt_send_queue dumps depth iters (Some c) w = Ret (b, w') ->
  kept_queue true w b w'.
Proof.
  intros H.
  refine (queue_ind (Some c) kept_msg kept_queue _ _ _ _
            depth iters w b w' H).
  - discriminate.
  - intros c' E. injection E as <-. intros. eapply kept_publish; eauto.
  - intros. eapply kept_exit; eauto.
  - intros. eapply kept_iter; eauto.
Qed.


(** *** A publish that is not to be enqueued *)

(** C8, as the code has it.  A publish with [enqueue=False] that returns
    [False] stores nothing.  Without a client it is the not-connected
    line (no keyword: not a warning, not DISCARDED) and nothing else, the
    queue exactly as it was.  With a client whose answer to this frame is
    not 0 it ends on the DISCARDED warning, and the messages queued
    before are, counted with multiplicity, those the transport accepted
    during the call and those queued afterwards: the drain that runs
    first can take messages off and put them back in another order, the
    new message is not among them. *)
Theorem mqtt_send_msg_without_enqueue depth iters mqtt_client t m
  (w : world) w' :
  qlen w <= maxsize ->
  mqtt_send_msg dumps depth iters mqtt_client t m false w = Ret (false, w') ->
  (exists evs,
     trace w' = trace w ++ evs /\
     Permutation (frames (mqtt_msg_queue w))
       (accepted evs ++ frames (mqtt_msg_queue w'))) /\
  match mqtt_client with
  | None =>
      w' = print (LNotConnected t) w /\
      mqtt_msg_queue w' = mqtt_msg_queue w /\
      severity_of (@LNotConnected payload t) = Info
  | Some c =>
      exists pre rc,
        trace w' = pre ++ [Publish t (dumps m) rc; Print (LDiscarded t)] /\
        rc = c pre t (dumps m) /\ rc <> 0%Z /\
        severity_of (@LDiscarded payload t) = Warning
  end.
Proof.
  intros L H. destruct mqtt_client as [c|].
  - destruct depth as [|d]; [discriminate|].
    rewrite mqtt_send_msg_some in H.
    apply bind_ret in H as [[b0 w0] [H0 H]]. simpl in H.
    destruct (mqtt_send_queue_kept _ _ _ _ _ _ H0 L) as (evs & T & P & _).
    apply publish_msg_inv in H.
    destruct H as [(_ & Hb & _)|(Nz & _ & l & T' & Hq)]; [discriminate|].
    destruct Hq as [(E & _)|[(E & _)|(_ & -> & Q)]]; try discriminate.
    split.
    + exists (evs ++ [Publish t (dumps m) (c (trace w0) t (dumps m));
                      Print (LDiscarded t)]).
      split; [rewrite T', app_assoc; f_equal; exact T|].
      rewrite accepted_app, Q. simpl.
      apply Z.eqb_neq in Nz. rewrite Nz, app_nil_r. exact P.
    + exists (trace w0), (c (trace w0) t (dumps m)). repeat split; auto.
  - rewrite mqtt_send_msg_none in H. injection H as <-. split.
    + exists [Print (LNotConnected t)]. split; [reflexivity|]. simpl.
      apply Permutation_refl.
    + repeat split.
Qed.

(** *** The order of a drain when every send succeeds *)

Lemma mqtt_send_queue_newest_first depth iters (c : client) (w : world) b w' :
  (forall evs t wire, c evs t wire = 0%Z) ->
  unfed w = 0 ->
  mqtt_send_queue dumps depth iters (Some c) w = Ret (b, w') ->
  b = true /\ mqtt_msg_queue w' = [] /\
  exists evs,
    trace w' = trace w ++ evs /\
    accepted evs = rev (map (frame_of dumps) (mqtt_msg_queue w)).
Proof.
  intros Hc U H.
  cut (true = true -> unfed w = 0 ->
       unfed w' = 0 /\ b = true /\ mqtt_msg_queue w' = [] /\
       exists evs, trace w' = trace w ++ evs /\
         accepted evs = rev (map (frame_of dumps) (mqtt_msg_queue w)));
    [intros X; now destruct (X eq_refl U) as (_ & X')|].
  clear U. revert w b w' H.
  apply (queue_ind (Some c)
           (fun t m _ w b w' =>
              unfed w = 0 ->
              unfed w' = 0 /\ b = true /\ mqtt_msg_queue w' = [] /\
              exists evs, trace w' = trace w ++ evs /\
                accepted evs
                = rev (map (frame_of dumps) (mqtt_msg_queue w)) ++ [(t, dumps m)])
           (fun success w b w' =>
              success = true -> unfed w = 0 ->
              unfed w' = 0 /\ b = true /\ mqtt_msg_queue w' = [] /\
              exists evs, trace w' = trace w ++ evs /\
                accepted evs = rev (map (frame_of dumps) (mqtt_msg_queue w)))).
  - discriminate.
  - intros c' E t m e w b0 w0 b w' Hl Hp U. injection E as <-.
    destruct (Hl eq_refl U) as (U0 & _ & Q0 & evs & T & A).
    pose proof Hp as Hp'. apply publish_msg_inv in Hp.
    destruct Hp as [(_ & -> & Q & T')|(Nz & _)]; [|now rewrite Hc in Nz].
    apply publish_msg_unfed in Hp'.
    split; [congruence|]. split; [reflexivity|]. split; [now rewrite Q|].
    exists (evs ++ [Publish t (dumps m) 0; Print (LSent t); Print (LMessage m)]).
    split; [rewrite T', app_assoc; f_equal; exact T|].
    now rewrite accepted_app, A.
  - intros success w e wp P E -> U. rewrite andb_true_r in E.
    apply negb_false_iff in E. subst e.
    apply poll_spec in P as (Ee & Q & T & Ule).
    assert (U' : unfed wp = 0) by lia. rewrite U' in Ee.
    unfold Queue.empty in Ee. symmetry in Ee. apply Nat.leb_le in Ee.
    assert (Qn : mqtt_msg_queue wp = [])
      by (destruct (mqtt_msg_queue wp); [reflexivity|simpl in Ee; lia]).
    split; [exact U'|]. split; [reflexivity|]. split; [exact Qn|].
    exists []. rewrite app_nil_r, <- Q, Qn. auto.
  - intros w wp m q b1 w1 b2 w2 P Q H1 H2 _ U.
    apply poll_spec in P as (_ & Q0 & T0 & Ule).
    destruct H1 as (U1 & -> & Q1 & evs1 & T1 & A1); [simpl; lia|].
    destruct (H2 eq_refl U1) as (U2 & -> & Q2 & evs2 & T2 & A2).
    split; [exact U2|]. split; [reflexivity|]. split; [exact Q2|].
    exists (Print (LSendingEnqueued (topic m)) :: evs1 ++ evs2). split.
    + rewrite T2, T1. simpl. rewrite T0. now rewrite <- !app_assoc.
    + simpl. rewrite accepted_app, A1, A2, Q1, <- Q0, Q. simpl.
      now rewrite app_nil_r.
Qed.

(** *** No exception leaves the two functions *)

Lemma send_queue_loop_no_raise
  (send : string -> payload -> world -> res (bool * world)) :
  (forall t m w e, send t m w <> Raise e) ->
  forall iters success (w : world) e,
    send_queue_loop send iters success w <> Raise e.
Proof.
  intros Hsend. induction iters as [|n IH]; intros success w e;
    destruct (poll w) as [e0 wp] eqn:P;
    destruct (negb e0 && success) eqn:E;
    try (rewrite (send_queue_loop_exit _ _ _ _ _ _ P E); discriminate).
  - rewrite send_queue_loop_eq, P, E. discriminate.
  - apply andb_true_iff in E as [E1 ->]. apply negb_true_iff in E1. subst e0.
    destruct (poll_nonempty _ _ P) as (m & q & Q & _).
    rewrite (send_queue_loop_step _ _ _ _ _ _ P Q).
    destruct (send (topic m) (message m) _) as [[b1 w1]|e'|] eqn:S1; simpl.
    + apply IH.
    + now apply Hsend in S1.
    + discriminate.
Qed.

Lemma mqtt_send_msg_no_raise depth iters mqtt_client t m enqueue (w : world) e :
  mqtt_send_msg dumps depth iters mqtt_client t m enqueue w <> Raise e.
Proof.
  destruct mqtt_client as [c|]; [|rewrite mqtt_send_msg_none; discriminate].
  revert t m enqueue w e.
  induction depth as [|d IH]; intros t m enqueue w e; [discriminate|].
  rewrite mqtt_send_msg_some. unfold mqtt_send_queue.
  destruct (send_queue_loop _ iters true w) as [[b0 w0]|e'|] eqn:L; simpl.
  - destruct (publish_msg_returns c t m enqueue w0) as (b & w' & ->).
    discriminate.
  - apply send_queue_loop_no_raise in L; [contradiction|].
    intros; apply IH.
  - discriminate.
Qed.

(** Neither function lets [queue.Empty] or [queue.Full] escape: every
    [get_nowait] is behind the [empty()] test of the loop and every
    [put_nowait] behind the [full()] test. *)
Theorem mqtt_send_never_raises depth iters mqtt_client (w : world) e :
  mqtt_send_queue dumps depth iters mqtt_client w <> Raise e /\
  (forall t m enqueue,
     mqtt_send_msg dumps depth iters mqtt_client t m enqueue w <> Raise e).
Proof.
  split.
  - unfold mqtt_send_queue. apply send_queue_loop_no_raise.
    intros; apply mqtt_send_msg_no_raise.
  - intros; apply mqtt_send_msg_no_raise.
Qed.

(** *** The queue never grows in a drain *)

(** A drain leaves no more messages in the queue than it found, with any
    client and also without one. *)
Theorem mqtt_send_queue_never_grows depth iters mqtt_client (w : world) b w' :
  mqtt_send_queue dumps depth iters mqtt_client w = Ret (b, w') ->
  qlen w' <= qlen w.
Proof. apply mqtt_send_length. Qed.

(** A publish adds at most one message to the queue, and none when it
    returns [True]. *)
Theorem mqtt_send_msg_grows_by_one depth iters mqtt_client t m enqueue
  (w : world) b w' :
  mqtt_send_msg dumps depth iters mqtt_client t m enqueue w = Ret (b, w') ->
  qlen w' <= qlen w + (if b then 0 else 1).
Proof. intros H. now apply mqtt_send_length in H. Qed.

(** *** A drain without a client *)

(** Called without a client on a queue whose oldest message is in the
    pipe, the drain takes that message off the queue and returns [False]:
    the message is neither sent nor put back, the rest of the queue
    stays. *)
Theorem mqtt_send_queue_no_client_loses_head depth iters m q (w : world) :
  mqtt_msg_queue w = m :: q ->
  unfed w <= List.length q ->
  exists w',
    mqtt_send_queue dumps depth (S iters) None w = Ret (false, w') /\
    mqtt_msg_queue w' = q /\
    trace w' = trace w ++ [Print (LSendingEnqueued (topic m));
                           Print (LNotConnected (topic m))] /\
    published (trace w') = published (trace w).
Proof.
  intros Q U. unfold mqtt_send_queue.
  destruct (poll w) as [e wp] eqn:P.
  pose proof (poll_spec _ _ _ P) as (Ee & Q0 & T0 & Ule).
  assert (E : e = false).
  { rewrite Ee, Q0, Q. unfold Queue.empty. apply Nat.leb_gt. simpl. lia. }
  clear Ee. subst e. rewrite Q in Q0.
  rewrite (send_queue_loop_step _ _ _ _ _ _ P Q0), mqtt_send_msg_none.
  simpl bind.
  destruct (poll (print (LNotConnected (topic m))
                    (print (LSendingEnqueued (topic m)) (set_queue q wp))))
    as [e1 wp1] eqn:P1.
  rewrite (send_queue_loop_exit _ _ _ _ _ _ P1) by apply andb_false_r.
  apply poll_spec in P1 as (_ & Q1 & T1 & _).
  eexists. split; [reflexivity|]. rewrite Q1, T1. simpl. rewrite T0.
  split; [reflexivity|]. split; [now rewrite <- app_assoc|].
  rewrite <- app_assoc, published_app. simpl. apply app_nil_r.
Qed.

(** *** A publish on an empty queue *)

(** With a client and nothing queued, a publish hands exactly its own
    frame to the transport; it returns [True] when the result code is 0
    and the queue stays empty, otherwise the queue holds this one message
    when [enqueue] is true and stays empty when it is false. *)
Theorem mqtt_send_msg_empty_queue depth iters (c : client) t m enqueue
  (w : world) :
  mqtt_msg_queue w = [] ->
  let rc := c (trace w) t (dumps m) in
  exists w',
    mqtt_send_msg dumps (S depth) iters (Some c) t m enqueue w
    = Ret ((rc =? 0)%Z, w') /\
    published (trace w') = published (trace w) ++ [(t, dumps m, rc)] /\
    mqtt_msg_queue w'
    = if (rc =? 0)%Z then [] else if enqueue then [QMsg t m] else [].
Proof.
  intros Q rc. rewrite mqtt_send_msg_some. unfold mqtt_send_queue.
  destruct (poll_nil _ Q) as (wp & P).
  rewrite (send_queue_loop_exit _ _ _ _ _ _ P) by reflexivity. simpl bind.
  apply poll_spec in P as (_ & Q0 & T0 & _). rewrite Q in Q0.
  rewrite publish_msg_cases. rewrite T0. fold rc.
  destruct (rc =? 0)%Z eqn:E.
  - eexists. split; [reflexivity|]. simpl. rewrite Q0, T0.
    split; [|reflexivity]. rewrite !published_app. simpl.
    now rewrite !app_nil_r.
  - eexists. split; [reflexivity|].
    assert (F : Queue.full maxsize (mqtt_msg_queue wp) = false)
      by (now rewrite Q0).
    rewrite F. destruct enqueue; simpl; rewrite Q0, T0;
      (split; [|reflexivity]); rewrite !published_app; simpl;
      now rewrite !app_nil_r.
Qed.

(** *** With room in the queue nothing is lost *)

(** A publish with a client, [enqueue] true and room in the queue loses
    nothing: the frame of the new message and the frames of the queued
    ones are, counted with multiplicity, the frames the transport
    accepted during the call and the frames queued afterwards; no DROPPED
    and no DISCARDED line is printed. *)
Theorem mqtt_send_msg_keeps_message depth iters (c : client) t m
  (w : world) b w' :
  qlen w < maxsize ->
  mqtt_send_msg dumps depth iters (Some c) t m true w = Ret (b, w') ->
  exists evs,
    trace w' = trace w ++ evs /\
    Permutation ((t, dumps m) :: frames (mqtt_msg_queue w))
      (accepted evs ++ frames (mqtt_msg_queue w')) /\
    existsb reports_loss evs = false.
Proof.
  intros L H.
  refine (msg_ind (Some c) kept_msg kept_queue _ _ _ _
            depth iters t m true w b w' H L eq_refl).
  - discriminate.
  - intros c' E. injection E as <-. intros. eapply kept_publish; eauto.
  - intros. eapply kept_exit; eauto.
  - intros. eapply kept_iter; eauto.
Qed.

(** A drain with a client on a queue within capacity reports no loss:
    among what it prints there is no DROPPED and no DISCARDED line. *)
Theorem mqtt_send_queue_reports_no_loss depth iters (c : client)
  (w : world) b w' :
  qlen w <= maxsize ->
  mqtt_send_queue dumps depth iters (Some c) w = Ret (b, w') ->
  exists evs, trace w' = trace w ++ evs /\ existsb reports_loss evs = false.
Proof.
  intros L H.
  destruct (mqtt_send_queue_kept _ _ _ _ _ _ H L) as (evs & T & _ & N).
  now exists evs.
Qed.

(** *** The messages in the pipe go to the transport before the new one *)

Lemma handed_app_l (evs1 evs2 : list (event payload)) f :
  handed evs1 f -> handed (evs1 ++ evs2) f.
Proof. intros [rc H]. exists rc. apply in_or_app. now left. Qed.

Lemma handed_app_r (evs1 evs2 : list (event payload)) f :
  handed evs2 f -> handed (evs1 ++ evs2) f.
Proof. intros [rc H]. exists rc. apply in_or_app. now right. Qed.

Lemma firstn_In_le {A : Type} (x : A) (l : list A) a b :
  a <= b -> In x (firstn a l) -> In x (firstn b l).
Proof.
  revert a b. induction l as [|y l IH]; intros a b L H.
  - now rewrite firstn_nil in H.
  - destruct a as [|a]; [contradiction|]. destruct b as [|b]; [lia|].
    simpl in *. destruct H as [H|H]; [now left|right].
    apply (IH a b); [lia|exact H].
Qed.

Local Abbreviation first_msg :=
  (fun t m (_ : bool) (w : world) (_ : bool) (w' : world) =>
     exists evs rc tail,
       trace w' = trace w ++ evs ++ Publish t (dumps m) rc :: tail /\
       published tail = [] /\
       forall q, In q (visible w) -> handed evs (frame_of dumps q)).

Local Abbreviation first_queue :=
  (fun (success : bool) (w : world) (_ : bool) (w' : world) =>
     exists evs,
       trace w' = trace w ++ evs /\
       (success = true ->
        forall q, In q (visible w) -> handed evs (frame_of dumps q))).

(** In a publish with a client, every message that was in the pipe when
    the call was made (queued, and written by the feeder thread) is handed
    to the transport at least once before the frame of the new message
    is; after the new frame the call only prints.  A message still in the
    feeder's buffer can be passed over. *)
Theorem mqtt_send_msg_backlog_first depth iters (c : client) t m enqueue
  (w : world) b w' :
  mqtt_send_msg dumps depth iters (Some c) t m enqueue w = Ret (b, w') ->
  exists evs rc tail,
    trace w' = trace w ++ evs ++ Publish t (dumps m) rc :: tail /\
    published tail = [] /\
    forall q, In q (visible w) -> handed evs (frame_of dumps q).
Proof.
  intros H.
  refine (msg_ind (Some c) first_msg first_queue _ _ _ _
            depth iters t m enqueue w b w' H).
  - discriminate.
  - intros c' _ t0 m0 e w0 b0 w1 b1 w2 (evs & T & Hh) Hp.
    apply publish_msg_inv in Hp.
    destruct Hp as [(_ & _ & _ & T')|(_ & _ & l & T' & _)].
    + exists evs, 0%Z, [Print (LSent t0); Print (LMessage m0)].
      split; [rewrite T', T, <- app_assoc; reflexivity|]. split; auto.
    + exists evs, (c' (trace w1) t0 (dumps m0)), [Print l].
      split; [rewrite T', T, <- app_assoc; reflexivity|]. split; auto.
  - intros success w0 e wp P E. apply poll_spec in P as (Ee & Q & T & Ule).
    exists []. split; [now rewrite app_nil_r|].
    intros ->. rewrite andb_true_r in E. apply negb_false_iff in E.
    rewrite E in Ee. symmetry in Ee. unfold Queue.empty in Ee.
    apply Nat.leb_le in Ee.
    intros x Hx. unfold visible in Hx. rewrite <- Q in Hx.
    replace (qlen wp - unfed w0) with 0 in Hx by lia. contradiction.
  - intros w0 wp m0 q b1 w1 b2 w2 P Q (evs1 & rc & tail & T1 & _ & H1)
      (evs2 & T2 & _).
    apply poll_spec in P as (_ & Q0 & T0 & Ule).
    exists (Print (LSendingEnqueued (topic m0))
            :: (evs1 ++ Publish (topic m0) (dumps (message m0)) rc :: tail)
            ++ evs2).
    split; [rewrite T2, T1; simpl; rewrite T0; now rewrite <- !app_assoc|].
    intros _ x Hx. unfold visible in Hx. rewrite <- Q0, Q in Hx.
    change (handed ([Print (LSendingEnqueued (topic m0))]
                    ++ (evs1 ++ Publish (topic m0) (dumps (message m0)) rc :: tail)
                    ++ evs2) (frame_of dumps x)).
    apply handed_app_r, handed_app_l.
    simpl List.length in Hx.
    destruct (S (List.length q) - unfed w0) as [|k] eqn:K; [contradiction|].
    simpl in Hx. destruct Hx as [<-|Hx].
    + apply handed_app_r. exists rc. now left.
    + apply handed_app_l. apply H1. unfold visible. simpl.
      apply (firstn_In_le _ _ k); [lia|exact Hx].
Qed.

(** *** The callbacks over a session *)

Lemma subscribed_app (evs1 evs2 : list (event payload)) :
  subscribed (evs1 ++ evs2) = subscribed evs1 ++ subscribed evs2.
Proof.
  induction evs1 as [|e evs1 IH]; [reflexivity|].
  destruct e; simpl; now rewrite ?IH.
Qed.

Lemma subscribed_publish_or_print (evs : list (event payload)) :
  forallb publish_or_print evs = true -> subscribed evs = [].
Proof.
  induction evs as [|e evs IH]; [reflexivity|].
  destruct e; simpl; try discriminate; exact IH.
Qed.

(** Always re-subscribe after reconnecting: over any sequence of connect
    acknowledgments and disconnects, with a subscription list that is not
    empty and a callback that does not subscribe itself, the handlers
    subscribe once per successful acknowledgment, each time to the whole
    list, and at no other time. *)
Theorem notify_all_resubscribes s l cb_success depth iters (c : client)
  ns (w : world) w' :
  (forall cb, cb_success = Some cb ->
     forall w0, subscribed (trace (cb c w0)) = subscribed (trace w0)) ->
  notify_all dumps (Some (s :: l)) cb_success depth iters c ns w = Ret w' ->
  subscribed (trace w')
  = subscribed (trace w)
    ++ repeat (s :: l) (List.length (filter connected ns)).
Proof.
  intros Hcb. revert w.
  induction ns as [|n ns IH]; intros w H; simpl in H.
  - injection H as <-. simpl. now rewrite app_nil_r.
  - apply bind_ret in H as [w1 [H1 H2]]. apply IH in H2. rewrite H2.
    destruct n as [code|code]; simpl in H1 |- *.
    + unfold cb_on_connect in H1. destruct (code =? 0)%Z.
      * apply bind_ret in H1 as [[ok w3] [D E]]. injection E as <-.
        apply mqtt_send_queue_events in D as (evs & T & F).
        assert (X : subscribed (trace w3) = subscribed (trace w) ++ [s :: l]).
        { rewrite T, subscribed_app, (subscribed_publish_or_print _ F),
            app_nil_r.
          destruct cb_success as [cb|].
          - rewrite (Hcb cb eq_refl). simpl.
            rewrite !subscribed_app. simpl. now rewrite !app_nil_r.
          - simpl. rewrite !subscribed_app. simpl. now rewrite !app_nil_r. }
        assert (Y : subscribed (trace (if negb ok
                                       then print LQueueFailed w3 else w3))
                    = subscribed (trace w3)).
        { destruct ok; simpl; [reflexivity|].
          rewrite subscribed_app. simpl. apply app_nil_r. }
        rewrite Y, X, <- app_assoc. reflexivity.
      * injection H1 as <-. simpl. rewrite subscribed_app. simpl.
        now rewrite app_nil_r.
    + injection H1 as <-. unfold cb_on_disconnect. simpl.
      rewrite subscribed_app. simpl. now rewrite app_nil_r.
Qed.

(** Refused connects and disconnects are only reported: whatever their
    number and codes, the handlers return, leave the queue as it was,
    hand nothing to the transport, subscribe to nothing and do not call
    the success callback. *)
Theorem notify_all_unconnected subscribe_to cb_success depth iters
  (c : client) ns (w : world) :
  forallb (fun n => negb (connected n)) ns = true ->
  exists w',
    notify_all dumps subscribe_to cb_success depth iters c ns w = Ret w' /\
    mqtt_msg_queue w' = mqtt_msg_queue w /\
    published (trace w') = published (trace w) /\
    subscribed (trace w') = subscribed (trace w) /\
    trace w'
    = trace w ++ map (fun n => match n with
                               | ConnAck code => Print (LConnectFailed code)
                               | Disconnected code => Print (LDisconnected code)
                               end) ns.
Proof.
  revert w. induction ns as [|n ns IH]; intros w H.
  - exists w. simpl. now rewrite app_nil_r.
  - simpl in H. apply andb_true_iff in H as [N H].
    assert (S1 : exists l,
               notify dumps subscribe_to cb_success depth iters c n w
               = Ret (print l w) /\
               Print l = match n with
                         | ConnAck code => Print (LConnectFailed code)
                         | Disconnected code => Print (LDisconnected code)
                         end).
    { destruct n as [code|code]; simpl in N |- *.
      - unfold cb_on_connect. apply negb_true_iff in N. rewrite N.
        exists (LConnectFailed code). split; reflexivity.
      - exists (LDisconnected code). split; reflexivity. }
    destruct S1 as (l0 & S1 & E).
    destruct (IH (print l0 w) H) as (w' & R & Q & P & S & T).
    exists w'. simpl. rewrite S1. simpl. split; [exact R|].
    split; [exact Q|]. split; [|split].
    + rewrite P. simpl. rewrite published_app. simpl. apply app_nil_r.
    + rewrite S. simpl. rewrite subscribed_app. simpl. apply app_nil_r.
    + rewrite T, <- E. simpl. now rewrite <- app_assoc.
Qed.

End Properties.

(** ** Properties of the device routes *)

Section RouteProperties.

Import DeviceRoutes.

Variables device dict : Type.

(** The routes on one device never let [NoResultFound] out: they raise
    [NoItemFoundException] exactly when the CRUD call raised
    [NoResultFound]. *)
Theorem item_routes_not_found (r : outcome device) :
  from_crud r ->
  (get_device_item r = Raised NoItemFoundException <->
   r = Raised (Db NoResultFound)) /\
  (update_device_item r = Raised NoItemFoundException <->
   r = Raised (Db NoResultFound)) /\
  (delete_device_item r = Raised NoItemFoundException <->
   r = Raised (Db NoResultFound)) /\
  get_device_item r <> Raised (Db NoResultFound) /\
  update_device_item r <> Raised (Db NoResultFound) /\
  delete_device_item r <> Raised (Db NoResultFound).
Proof.
  intros H.
  destruct r as [a|[[|d| |n]| | |e]]; simpl in *; try contradiction;
    repeat split; intros; try discriminate; try reflexivity.
Qed.

(** [create_device_item] never lets [IntegrityError] out, and it is the
    one exception it translates: the route raises [ItemAlreadyExist]
    exactly when the encoder or [create_device] raised [IntegrityError],
    and in every other case its outcome is the outcome of the call that
    ended it, a [DataError] included. *)
Theorem create_device_item_integrity (enc : outcome dict)
  (create_device : dict -> outcome device) :
  from_crud enc -> (forall d, from_crud (create_device d)) ->
  let ended : outcome device :=
    match enc with
    | Returned d => create_device d
    | Raised e => Raised e
    end in
  create_device_item enc create_device <> Raised (Db IntegrityError) /\
  (create_device_item enc create_device = Raised ItemAlreadyExist <->
   ended = Raised (Db IntegrityError)) /\
  (ended <> Raised (Db IntegrityError) ->
   create_device_item enc create_device = ended).
Proof.
  intros He Hc ended. unfold create_device_item. subst ended.
  destruct enc as [d|[[|x| |n]| | |e]]; simpl in He; try contradiction.
  - specialize (Hc d).
    destruct (create_device d) as [a|[[|x| |n]| | |e]]; simpl in Hc;
      try contradiction;
      repeat split; intros; try discriminate; try reflexivity;
      try contradiction.
  - repeat split; intros; try discriminate; try reflexivity; contradiction.
  - repeat split; intros; try discriminate; reflexivity.
  - repeat split; intros; try discriminate; reflexivity.
  - repeat split; intros; try discriminate; reflexivity.
Qed.

End RouteProperties.

(** ** The code on sample inputs *)

Section Samples.

Import Sample.
Local Open Scope string_scope.
Local Open Scope list_scope.



(** C2 on the code: two messages queued, a, then b, and every send
    succeeds.  The on-connect drain empties the queue, and hands b to the
    transport before a. *)
Lemma cb_on_connect_drains_newest_first :
  exists w',
    cb_on_connect dumps None None 2 2 client_ok 0 (backlog ["a"; "b"])
    = Ret w' /\
    mqtt_msg_queue w' = [] /\
    published (trace w') = [("b", "b", 0%Z); ("a", "a", 0%Z)].
Proof.
  eexists. split; [vm_compute; reflexivity|]. split; reflexivity.
Qed.

(** C3 on the code: no client, [enqueue] true, an empty queue.  The
    message is not appended. *)
Lemma mqtt_send_msg_no_client_not_enqueued :
  exists w',
    mqtt_send_msg dumps 1 1 None "alerts" "fire" true (backlog [])
    = Ret (false, w') /\
    List.length (mqtt_msg_queue (backlog [])) < maxsize /\
    mqtt_msg_queue w' = [] /\
    mqtt_msg_queue w' <> mqtt_msg_queue (backlog []) ++ [QMsg "alerts" "fire"].
Proof.
  eexists. split; [vm_compute; reflexivity|].
  split; [unfold maxsize; simpl; lia|]. split; [reflexivity|discriminate].
Qed.

Lemma mqtt_msg_queue_bounded_witness :
  List.length (mqtt_msg_queue full_queue) <= maxsize /\
  run dumps 101 101 publish_on_full full_queue = Ret after_publish_on_full /\
  List.length (mqtt_msg_queue after_publish_on_full) <= maxsize /\
  maxsize = 100 /\
  (List.length (mqtt_msg_queue after_publish_on_full) = maxsize ->
   forall t m, exists w'',
     on_failure t m true after_publish_on_full = Ret (false, w'') /\
     mqtt_msg_queue w'' = mqtt_msg_queue after_publish_on_full).
Proof.
  assert (L : List.length (mqtt_msg_queue full_queue) <= maxsize)
    by (vm_compute; lia).
  assert (H : run dumps 101 101 publish_on_full full_queue
              = Ret after_publish_on_full)
    by (vm_compute; reflexivity).
  split; [exact L|]. split; [exact H|].
  exact (mqtt_msg_queue_bounded string dumps 101 101 publish_on_full
           full_queue after_publish_on_full L H).
Defined.

(** C5 on the code: one producer, an empty queue, a client whose first
    three publishes fail.  a and b are enqueued in this order; the third
    call then hands b to the transport before a. *)
Lemma mqtt_send_msg_backlog_newest_first :
  exists w1 w2 w3,
    publish_late "a" (backlog []) = Ret (false, w1) /\
    mqtt_msg_queue w1 = [msg "a"] /\
    publish_late "b" w1 = Ret (false, w2) /\
    mqtt_msg_queue w2 = [msg "a"; msg "b"] /\
    publish_late "c" w2 = Ret (true, w3) /\
    mqtt_msg_queue w3 = [] /\
    accepted (trace w3) = [("b", "b"); ("a", "a"); ("c", "c")].
Proof.
  eexists; eexists; eexists.
  split; [vm_compute; reflexivity|]. split; [reflexivity|].
  split; [vm_compute; reflexivity|]. split; [reflexivity|].
  split; [vm_compute; reflexivity|]. split; reflexivity.
Qed.




(** C8 on the code: [enqueue=False] and a queue holding a, then b.
    Without a client the call prints the not-connected line, not
    DISCARDED.  With a client that is down the call prints DISCARDED, and
    the queue that held a, b holds b, a. *)
Lemma mqtt_send_msg_discarded_not_as_it_was :
  (exists w',
     publish_no_client = Ret (false, w') /\
     trace w' = [Print (LNotConnected "new")] /\
     ~ In (Print (LDiscarded "new")) (trace w') /\
     severity_of (@LNotConnected string "new") <> Warning) /\
  (exists w',
     publish_discarded = Ret (false, w') /\
     In (Print (LDiscarded "new")) (trace w') /\
     mqtt_msg_queue two = [msg "a"; msg "b"] /\
     mqtt_msg_queue w' = [msg "b"; msg "a"] /\
     mqtt_msg_queue w' <> mqtt_msg_queue two).
Proof.
  split.
  - eexists. split; [vm_compute; reflexivity|]. split; [reflexivity|].
    split; [|discriminate].
    intros [H|[]]. discriminate.
  - eexists. split; [vm_compute; reflexivity|].
    split; [simpl; tauto|]. split; [reflexivity|].
    split; [reflexivity|discriminate].
Qed.

Lemma mqtt_send_msg_without_enqueue_witness :
  List.length (mqtt_msg_queue two) <= maxsize /\
  publish_discarded = Ret (false, world_of publish_discarded) /\
  (exists evs,
     trace (world_of publish_discarded) = trace two ++ evs /\
     Permutation (map (frame_of dumps) (mqtt_msg_queue two))
       (accepted evs
        ++ map (frame_of dumps) (mqtt_msg_queue (world_of publish_discarded)))) /\
  exists pre rc,
    trace (world_of publish_discarded)
    = pre ++ [Publish "new" (dumps "new") rc; Print (LDiscarded "new")] /\
    rc = client_down pre "new" (dumps "new") /\ rc <> 0%Z /\
    severity_of (@LDiscarded string "new") = Warning.
Proof.
  assert (L : List.length (mqtt_msg_queue two) <= maxsize)
    by (unfold maxsize; simpl; lia).
  assert (H : mqtt_send_msg dumps 3 3 (Some client_down) "new"%string "new"%string false two
               = Ret (false, world_of publish_discarded))
    by (vm_compute; reflexivity).
  split; [exact L|]. split; [vm_compute; reflexivity|].
  exact (mqtt_send_msg_without_enqueue string dumps 3 3 (Some client_down)
           "new" "new" two (world_of publish_discarded) L H).
Defined.

Lemma mqtt_send_msg_true_iff_sent_witness :
  publish_third = Ret (true, world_of publish_third) /\
  (true = true <->
   exists c pre, Some client_ok = Some c /\ c pre "c" (dumps "c") = 0%Z /\
     trace (world_of publish_third)
     = pre ++ [Publish "c" (dumps "c") 0; Print (LSent "c");
               Print (LMessage "c")]) /\
  (true = false <->
   (Some client_ok = None /\
    trace (world_of publish_third)
    = trace (backlog ["a"; "b"]) ++ [Print (LNotConnected "c")])
   \/
   (exists c pre rc l, Some client_ok = Some c /\
      rc = c pre "c" (dumps "c") /\ rc <> 0%Z /\
      trace (world_of publish_third)
      = pre ++ [Publish "c" (dumps "c") rc; Print l] /\
      (l = LEnqueued "c" \/ l = LDropped "c" \/ l = LDiscarded "c"))).
Proof.
  assert (H : mqtt_send_msg dumps 3 3 (Some client_ok) "c"%string "c"%string true (backlog ["a"; "b"]%string)
               = Ret (true, world_of publish_third))
    by (vm_compute; reflexivity).
  split; [vm_compute; reflexivity|].
  exact (mqtt_send_msg_true_iff_sent string dumps 3 3 (Some client_ok)
           "c" "c" true (backlog ["a"; "b"]) true (world_of publish_third) H).
Defined.

Lemma mqtt_send_terminates_witness :
  List.length (mqtt_msg_queue three) <= 3 /\
  (exists b w',
     mqtt_send_queue dumps 3 3 (Some (client_refusing "m2")) three
     = Ret (b, w')) /\
  (forall t m enqueue, exists b w',
     mqtt_send_msg dumps 4 3 (Some (client_refusing "m2")) t m enqueue three
     = Ret (b, w')).
Proof.
  assert (L : List.length (mqtt_msg_queue three) <= 3) by (simpl; lia).
  split; [exact L|].
  exact (mqtt_send_terminates string dumps 3 3
           (Some (client_refusing "m2")) three L L).
Defined.

End Samples.

(** ** More sample runs, checked *)

Section Scenarios.

Import Sample Scenario.
Local Open Scope string_scope.
Local Open Scope list_scope.

Lemma mqtt_send_queue_never_grows_witness :
  drain_three = Ret (false, world_of drain_three) /\
  List.length (mqtt_msg_queue (world_of drain_three))
  <= List.length (mqtt_msg_queue three).
Proof.
  assert (H : mqtt_send_queue dumps 3 3 (Some (client_refusing "m2")) three
               = Ret (false, world_of drain_three))
    by (vm_compute; reflexivity).
  split; [vm_compute; reflexivity|].
  exact (mqtt_send_queue_never_grows string dumps 3 3
           (Some (client_refusing "m2")) three false (world_of drain_three) H).
Defined.

Lemma mqtt_send_msg_grows_by_one_witness :
  publish_refused = Ret (false, world_of publish_refused) /\
  List.length (mqtt_msg_queue (world_of publish_refused))
  <= List.length (mqtt_msg_queue three) + 1.
Proof.
  assert (H : mqtt_send_msg dumps 4 3 (Some (client_refusing "new")) "new"%string "new"%string true three
               = Ret (false, world_of publish_refused))
    by (vm_compute; reflexivity).
  split; [vm_compute; reflexivity|].
  exact (mqtt_send_msg_grows_by_one string dumps 4 3
           (Some (client_refusing "new")) "new" "new" true three false
           (world_of publish_refused) H).
Defined.

Lemma mqtt_send_queue_no_client_loses_head_witness :
  mqtt_msg_queue three = msg "m1" :: [msg "m2"; msg "m3"] /\
  unfed three <= List.length [msg "m2"; msg "m3"] /\
  exists w',
    mqtt_send_queue dumps 0 1 None three = Ret (false, w') /\
    mqtt_msg_queue w' = [msg "m2"; msg "m3"] /\
    trace w' = trace three ++ [Print (LSendingEnqueued "m1");
                               Print (LNotConnected "m1")] /\
    published (trace w') = published (trace three).
Proof.
  assert (Q : mqtt_msg_queue three = msg "m1" :: [msg "m2"; msg "m3"])
    by reflexivity.
  assert (U : unfed three <= List.length [msg "m2"; msg "m3"])
    by (simpl; lia).
  split; [exact Q|]. split; [exact U|].
  exact (mqtt_send_queue_no_client_loses_head string dumps 0 0
           (msg "m1") [msg "m2"; msg "m3"] three Q U).
Defined.

Lemma mqtt_send_msg_empty_queue_witness :
  mqtt_msg_queue (backlog []) = [] /\
  exists w',
    publish_down = Ret (false, w') /\
    published (trace w') = [("alerts", "fire", 4%Z)] /\
    mqtt_msg_queue w' = [QMsg "alerts" "fire"].
Proof.
  assert (Q : mqtt_msg_queue (backlog []) = []) by reflexivity.
  split; [exact Q|].
  exact (mqtt_send_msg_empty_queue string dumps 0 0 client_down
           "alerts" "fire" true (backlog []) Q).
Defined.

Lemma mqtt_send_msg_keeps_message_witness :
  List.length (mqtt_msg_queue three) < maxsize /\
  publish_refused = Ret (false, world_of publish_refused) /\
  exists evs,
    trace (world_of publish_refused) = trace three ++ evs /\
    Permutation
      (("new", dumps "new") :: map (frame_of dumps) (mqtt_msg_queue three))
      (accepted evs
       ++ map (frame_of dumps) (mqtt_msg_queue (world_of publish_refused))) /\
    existsb reports_loss evs = false.
Proof.
  assert (L : List.length (mqtt_msg_queue three) < maxsize)
    by (unfold maxsize; simpl; lia).
  assert (H : mqtt_send_msg dumps 4 3 (Some (client_refusing "new")) "new"%string "new"%string true three
               = Ret (false, world_of publish_refused))
    by (vm_compute; reflexivity).
  split; [exact L|]. split; [vm_compute; reflexivity|].
  exact (mqtt_send_msg_keeps_message string dumps 4 3
           (client_refusing "new") "new" "new" three false
           (world_of publish_refused) L H).
Defined.

Lemma mqtt_send_queue_reports_no_loss_witness :
  List.length (mqtt_msg_queue three) <= maxsize /\
  drain_three = Ret (false, world_of drain_three) /\
  exists evs,
    trace (world_of drain_three) = trace three ++ evs /\
    existsb reports_loss evs = false.
Proof.
  assert (L : List.length (mqtt_msg_queue three) <= maxsize)
    by (unfold maxsize; simpl; lia).
  assert (H : mqtt_send_queue dumps 3 3 (Some (client_refusing "m2")) three
               = Ret (false, world_of drain_three))
    by (vm_compute; reflexivity).
  split; [exact L|]. split; [vm_compute; reflexivity|].
  exact (mqtt_send_queue_reports_no_loss string dumps 3 3
           (client_refusing "m2") three false (world_of drain_three) L H).
Defined.

Lemma mqtt_send_msg_backlog_first_witness :
  publish_refused = Ret (false, world_of publish_refused) /\
  exists evs rc tail,
    trace (world_of publish_refused)
    = trace three ++ evs ++ Publish "new" (dumps "new") rc :: tail /\
    published tail = [] /\
    forall q, In q (visible three) -> handed evs (frame_of dumps q).
Proof.
  assert (H : mqtt_send_msg dumps 4 3 (Some (client_refusing "new")) "new"%string "new"%string true three
               = Ret (false, world_of publish_refused))
    by (vm_compute; reflexivity).
  split; [vm_compute; reflexivity|].
  exact (mqtt_send_msg_backlog_first string dumps 4 3
           (client_refusing "new") "new" "new" true three false
           (world_of publish_refused) H).
Defined.

Lemma mqtt_send_queue_newest_first_witness :
  (forall evs t wire, client_ok evs t wire = 0%Z) /\
  unfed three = 0 /\
  drain_ok = Ret (true, world_of drain_ok) /\
  true = true /\ mqtt_msg_queue (world_of drain_ok) = [] /\
  exists evs,
    trace (world_of drain_ok) = trace three ++ evs /\
    accepted evs = rev (map (frame_of dumps) (mqtt_msg_queue three)).
Proof.
  assert (C : forall evs t wire, client_ok evs t wire = 0%Z)
    by reflexivity.
  assert (H : mqtt_send_queue dumps 3 3 (Some client_ok) three
               = Ret (true, world_of drain_ok))
    by (vm_compute; reflexivity).
  split; [exact C|]. split; [reflexivity|]. split; [vm_compute; reflexivity|].
  exact (mqtt_send_queue_newest_first string dumps 3 3 client_ok three true
           (world_of drain_ok) C eq_refl H).
Defined.

Lemma notify_all_resubscribes_witness :
  (forall cb, Some quiet = Some cb ->
     forall w0, subscribed (trace (cb client_ok w0)) = subscribed (trace w0)) /\
  after_session = Ret (value three after_session) /\
  subscribed (trace (value three after_session))
  = subscribed (trace three)
    ++ repeat [commands] (List.length (filter connected session)).
Proof.
  assert (C : forall cb, Some quiet = Some cb ->
                forall w0, subscribed (trace (cb client_ok w0))
                           = subscribed (trace w0))
    by (intros cb E w0; injection E as <-; reflexivity).
  assert (H : notify_all dumps (Some [commands]) (Some quiet) 3 3 client_ok session three
               = Ret (value three after_session))
    by (vm_compute; reflexivity).
  split; [exact C|]. split; [vm_compute; reflexivity|].
  exact (notify_all_resubscribes string dumps commands [] (Some quiet) 3 3
           client_ok session three (value three after_session) C H).
Defined.

Lemma notify_all_unconnected_witness :
  forallb (fun n => negb (connected n)) unconnected = true /\
  exists w',
    notify_all dumps (Some [commands]) (Some say_hello) 0 0 client_ok
      unconnected three = Ret w' /\
    mqtt_msg_queue w' = mqtt_msg_queue three /\
    published (trace w') = published (trace three) /\
    subscribed (trace w') = subscribed (trace three) /\
    trace w'
    = trace three
      ++ map (fun n => match n with
                       | ConnAck code => Print (LConnectFailed code)
                       | Disconnected code => Print (LDisconnected code)
                       end) unconnected.
Proof.
  assert (N : forallb (fun n => negb (connected n)) unconnected = true)
    by reflexivity.
  split; [exact N|].
  exact (notify_all_unconnected string dumps (Some [commands])
           (Some say_hello) 0 0 client_ok unconnected three N).
Defined.

Lemma item_routes_not_found_witness :
  DeviceRoutes.from_crud no_row /\
  (DeviceRoutes.get_device_item no_row
   = DeviceRoutes.Raised DeviceRoutes.NoItemFoundException <->
   no_row = DeviceRoutes.Raised (DeviceRoutes.Db DeviceRoutes.NoResultFound)) /\
  (DeviceRoutes.update_device_item no_row
   = DeviceRoutes.Raised DeviceRoutes.NoItemFoundException <->
   no_row = DeviceRoutes.Raised (DeviceRoutes.Db DeviceRoutes.NoResultFound)) /\
  (DeviceRoutes.delete_device_item no_row
   = DeviceRoutes.Raised DeviceRoutes.NoItemFoundException <->
   no_row = DeviceRoutes.Raised (DeviceRoutes.Db DeviceRoutes.NoResultFound)) /\
  DeviceRoutes.get_device_item no_row
  <> DeviceRoutes.Raised (DeviceRoutes.Db DeviceRoutes.NoResultFound) /\
  DeviceRoutes.update_device_item no_row
  <> DeviceRoutes.Raised (DeviceRoutes.Db DeviceRoutes.NoResultFound) /\
  DeviceRoutes.delete_device_item no_row
  <> DeviceRoutes.Raised (DeviceRoutes.Db DeviceRoutes.NoResultFound).
Proof.
  assert (F : DeviceRoutes.from_crud no_row) by exact I.
  split; [exact F|].
  exact (item_routes_not_found string no_row F).
Defined.

Lemma create_device_item_integrity_witness :
  DeviceRoutes.from_crud (DeviceRoutes.Returned "jetson") /\
  (forall d : string, DeviceRoutes.from_crud
     (@DeviceRoutes.Raised string (DeviceRoutes.Db DeviceRoutes.IntegrityError))) /\
  DeviceRoutes.create_device_item (DeviceRoutes.Returned "jetson")
    (fun _ : string =>
       @DeviceRoutes.Raised string (DeviceRoutes.Db DeviceRoutes.IntegrityError))
  = DeviceRoutes.Raised DeviceRoutes.ItemAlreadyExist.
Proof.
  assert (F1 : DeviceRoutes.from_crud (DeviceRoutes.Returned "jetson"))
    by exact I.
  assert (F2 : forall d : string, DeviceRoutes.from_crud
                 (@DeviceRoutes.Raised string
                    (DeviceRoutes.Db DeviceRoutes.IntegrityError)))
    by (intros; exact I).
  split; [exact F1|]. split; [exact F2|].
  apply (create_device_item_integrity string string
           (DeviceRoutes.Returned "jetson")
           (fun _ : string =>
              @DeviceRoutes.Raised string
                (DeviceRoutes.Db DeviceRoutes.IntegrityError)) F1 F2).
  reflexivity.
Defined.

End Scenarios.

